(** * best/io/errnos.py: the generator of errnos.inc

    A shallow embedding of [main] of [best/io/errnos.py] and the
    properties of its three outputs (declarations, definitions and the
    gap-filled initializer table).

    Text is modelled by [string]: a sequence of characters whose code
    points are below 256.  The built-in operations the script calls
    ([str.splitlines], [str.split], [int], [str.title], the format
    specifications of f-strings, [list.sort], [subprocess.run], [print])
    are modelled here after their documented behaviour on such text;
    the case mapping of [str.title] is the one of the ASCII letters,
    which is all that the names of error numbers hold. *)

From Stdlib Require Import ZArith NArith Nnat List String Ascii Bool Lia.
From Stdlib Require Import Permutation Sorted.
From Stdlib Require Import DecimalString.
From Stdlib Require DecimalFacts DecimalPos.
Import ListNotations.
Local Open Scope string_scope.
Local Open Scope list_scope.
Local Open Scope Z_scope.

(** ** Exceptions, results and the output monad *)

(** The exceptions [main] can let escape. [FileNotFoundError] stands for
    the [OSError] family raised by [subprocess.run] when the executable
    cannot be started. *)
Inductive exn : Type :=
| FileNotFoundError
| ValueError
| IndexError.

Inductive res (A : Type) : Type :=
| Ret (a : A)
| Raise (e : exn).
Arguments Ret {A} a.
Arguments Raise {A} e.

(** Standard output is the list of lines printed so far.  A computation
    takes the lines already printed and gives the lines printed when it
    stops, with its value or the exception that stopped it. *)
Definition console : Type := list string.
Definition Py (A : Type) : Type := console -> console * res A.

Definition ret {A} (a : A) : Py A := fun out => (out, Ret a).
Definition raise {A} (e : exn) : Py A := fun out => (out, Raise e).
Definition bind {A B} (m : Py A) (k : A -> Py B) : Py B :=
  fun out =>
    match m out with
    | (out', Ret a) => k a out'
    | (out', Raise e) => (out', Raise e)
    end.
Definition lift {A} (r : res A) : Py A := fun out => (out, r).

(** [print(line)]: one more line on standard output.  The output stream
    is taken to accept every line: a failure of the stream itself (an
    encoding that lacks a character, a closed pipe) is outside the
    model, and no statement below is about such failures. *)
Definition print (line : string) : Py unit := fun out => (out ++ [line], Ret tt).

Declare Scope py_scope.
Delimit Scope py_scope with py.
Notation "x <- m ;; k" := (bind m (fun x => k))
  (at level 100, m at next level, right associativity) : py_scope.
Notation "m ;; k" := (bind m (fun _ => k))
  (at level 100, right associativity) : py_scope.
Local Open Scope py_scope.

(** [for x in l: body(x)] *)
Fixpoint for_each {A} (l : list A) (body : A -> Py unit) : Py unit :=
  match l with
  | [] => ret tt
  | x :: l' => body x ;; for_each l' body
  end.

(** ** Characters *)

Definition code (c : ascii) : N := N_of_ascii c.

(** Line boundaries of [str.splitlines]: LF, VT, FF, CR, FS, GS, RS and
    NEL (U+2028 and U+2029 lie outside the modelled range). *)
Definition is_linebreak (c : ascii) : bool :=
  let n := code c in
  ((10 <=? n) && (n <=? 13))%N || ((28 <=? n) && (n <=? 30))%N || (n =? 133)%N.

(** White space skipped by [int] around a literal: TAB, LF, VT, FF, CR
    and space, and the two spaces above U+007F that the conversion maps
    to a space first (NEL and NBSP). *)
Definition is_int_space (c : ascii) : bool :=
  let n := code c in
  ((9 <=? n) && (n <=? 13))%N || (n =? 32)%N || (n =? 133)%N || (n =? 160)%N.

Definition is_digit (c : ascii) : bool :=
  let n := code c in ((48 <=? n) && (n <=? 57))%N.

Definition digit_value (c : ascii) : Z := Z.of_N (code c) - 48.

Definition is_upper (c : ascii) : bool :=
  let n := code c in ((65 <=? n) && (n <=? 90))%N.
Definition is_lower (c : ascii) : bool :=
  let n := code c in ((97 <=? n) && (n <=? 122))%N.

(** Case mapping of [str.title], on the letters of ASCII; the other
    characters are taken as uncased and unchanged.  This is the mapping
    of the interpreter on ASCII text only (above U+007F it has cased
    letters whose images may even leave the modelled range), so every
    statement below that depends on what [title] computes is about
    ASCII names. *)
Definition is_cased (c : ascii) : bool := is_upper c || is_lower c.
Definition to_upper (c : ascii) : ascii :=
  if is_lower c then ascii_of_N (code c - 32) else c.
Definition to_lower (c : ascii) : ascii :=
  if is_upper c then ascii_of_N (code c + 32) else c.

(** ** Built-in string operations *)

(** [s.splitlines()]: the lines of [s] without their boundaries; CR LF
    is one boundary, and a boundary at the very end opens no new line. *)
Fixpoint splitlines (s : string) : list string :=
  match s with
  | EmptyString => []
  | String c s' =>
      if is_linebreak c then
        match s' with
        | String c' s'' =>
            if ((code c =? 13) && (code c' =? 10))%N
            then EmptyString :: splitlines s''
            else EmptyString :: splitlines s'
        | EmptyString => [EmptyString]
        end
      else
        match splitlines s' with
        | [] => [String c EmptyString]
        | l :: ls => String c l :: ls
        end
  end.

(** [s.split(sep, maxsplit)] for a one-character separator: cut at the
    first [maxsplit] occurrences of [sep], from the left. *)
Fixpoint split (sep : ascii) (maxsplit : nat) (s : string) {struct s} : list string :=
  match maxsplit with
  | O => [s]
  | S m =>
      match s with
      | EmptyString => [EmptyString]
      | String c s' =>
          if Ascii.eqb c sep then EmptyString :: split sep m s'
          else
            match split sep maxsplit s' with
            | [] => [String c EmptyString]
            | p :: ps => String c p :: ps
            end
      end
  end.

(** [int(s)] in base ten: white space, an optional sign, digits with
    single underscores between them, white space; and no more digits
    than [sys.int_info.default_max_str_digits], the bound of the
    interpreter on one conversion (leading zeros count, underscores do
    not).  [None] is the [ValueError] of the conversion. *)
Definition max_str_digits : N := 4300.

Fixpoint digit_count (s : string) : N :=
  match s with
  | EmptyString => 0
  | String c s' => ((if is_digit c then 1 else 0) + digit_count s')%N
  end.

Fixpoint all_int_space (s : string) : bool :=
  match s with
  | EmptyString => true
  | String c s' => is_int_space c && all_int_space s'
  end.

Fixpoint int_digits (prev_digit : bool) (acc : Z) (s : string) : option Z :=
  match s with
  | EmptyString => if prev_digit then Some acc else None
  | String c s' =>
      if is_digit c then int_digits true (10 * acc + digit_value c) s'
      else if Ascii.eqb c "_" then
        if prev_digit then int_digits false acc s' else None
      else if is_int_space c then
        if prev_digit && all_int_space s' then Some acc else None
      else None
  end.

Definition int_signed (s : string) : option Z :=
  match s with
  | String "+" s' => int_digits false 0 s'
  | String "-" s' => option_map Z.opp (int_digits false 0 s')
  | _ => int_digits false 0 s
  end.

Fixpoint int_literal (s : string) : option Z :=
  match s with
  | String c s' => if is_int_space c then int_literal s' else int_signed s
  | EmptyString => None
  end.

Definition int (s : string) : option Z :=
  if (digit_count s <=? max_str_digits)%N then int_literal s else None.

(** [s.title()]: a cased character is upper-cased when the character
    before it is not cased, and lower-cased otherwise. *)
Fixpoint title_from (previous_is_cased : bool) (s : string) : string :=
  match s with
  | EmptyString => EmptyString
  | String c s' =>
      String (if previous_is_cased then to_lower c else to_upper c)
             (title_from (is_cased c) s')
  end.
Definition title (s : string) : string := title_from false s.

(** [str(n)] and the format specification [04]: the decimal digits,
    after the sign, padded with zeros to four characters.  (The
    interpreter formats an integer of at most [max_str_digits] digits
    only; the numbers that the script formats are results of [int],
    which are within this bound, and indices of the table.  A statement
    below about the decimal form of an arbitrary integer assumes the
    bound.) *)
Definition str (n : Z) : string := NilZero.string_of_int (Z.to_int n).

Fixpoint zeros (k : nat) : string :=
  match k with
  | O => EmptyString
  | S k' => String "0" (zeros k')
  end.

Definition format_04 (n : Z) : string :=
  let sign := if n <? 0 then "-" else EmptyString in
  let digits := str (Z.abs n) in
  (sign ++ zeros (4 - String.length sign - String.length digits) ++ digits)%string.

(** ** The script *)

(** One element of [errnos]: the tuple [(int(num), name, message)]. *)
Definition entry : Type := Z * string * string.

(** [lambda t: t[0]], the sort key. *)
Definition key (t : entry) : Z := fst (fst t).

(** The body of the first loop, for one line:
    [name, num, message = tuple(line.split(" ", 2))] raises [ValueError]
    unless the split gives three parts, and so does [int(num)] on a
    token that is no integer literal. *)
Definition parse_line (line : string) : res entry :=
  match split " " 2 line with
  | [name; num; message] =>
      match int num with
      | Some n => Ret (n, name, message)
      | None => Raise ValueError
      end
  | _ => Raise ValueError
  end.

(** [for line in raw.splitlines(): ... errnos.append(...)] *)
Fixpoint parse_lines (lines : list string) (errnos : list entry) : res (list entry) :=
  match lines with
  | [] => Ret errnos
  | line :: rest =>
      match parse_line line with
      | Ret t => parse_lines rest (errnos ++ [t])
      | Raise e => Raise e
      end
  end.

(** [errnos.sort(key=lambda t: t[0])].  [list.sort] is stable; a stable
    sort is modelled by insertion before the first element whose key is
    not smaller.  [sort_unique] below shows that every stable sort
    computes this same list. *)
Fixpoint insert (t : entry) (l : list entry) : list entry :=
  match l with
  | [] => [t]
  | u :: l' => if key t <=? key u then t :: l else u :: insert t l'
  end.

Fixpoint sort (l : list entry) : list entry :=
  match l with
  | [] => []
  | t :: l' => insert t (sort l')
  end.

(** What [subprocess.run(["errno", "-l"], text=True, capture_output=True)]
    can do: raise because the executable cannot be started, or return
    the completed process, whatever its return code ([check] is not
    passed). *)
Inductive run_result : Type :=
| Run_raises (e : exn)
| Completed_process (returncode : Z) (stdout stderr : string).

(** [subprocess.run(...).stdout] *)
Definition run_stdout (tool : run_result) : Py string :=
  match tool with
  | Run_raises e => raise e
  | Completed_process _ stdout _ => ret stdout
  end.

(** [sys.argv[1] if len(sys.argv) > 0 else None]; indexing past the end
    of the list raises [IndexError]. *)
Definition select_which (argv : list string) : res (option string) :=
  if (0 <? List.length argv)%nat then
    match nth_error argv 1 with
    | Some a => Ret (Some a)
    | None => Raise IndexError
    end
  else Ret None.

(** [which == word], where [which] may be [None]. *)
Definition which_is (which : option string) (word : string) : bool :=
  match which with
  | Some a => String.eqb a word
  | None => false
  end.

Definition dquote : string := String "034" EmptyString.

(** The four f-strings. *)
Definition decl_line (name : string) : string :=
  ("static const ioerr " ++ title name ++ ";")%string.
Definition def_line (n : Z) (name : string) : string :=
  ("constexpr ioerr ioerr::" ++ title name ++ "(" ++ str n ++ ");")%string.
Definition empty_line (next : Z) : string :=
  ("/*" ++ format_04 next ++ "*/ e{},")%string.
Definition entry_line (next : Z) (name message : string) : string :=
  ("/*" ++ format_04 next ++ "*/ e{" ++ dquote ++ name ++ dquote ++ ", "
        ++ dquote ++ message ++ dquote ++ "},")%string.

(** [while next < n: print(...); next += 1], giving the final [next].
    The loop runs at most [n - next] times, which is the fuel it is
    started with in [table_for]. *)
Fixpoint while_next_lt (fuel : nat) (n next : Z) : Py Z :=
  match fuel with
  | O => ret next
  | S fuel' =>
      if next <? n then
        print (empty_line next) ;;
        while_next_lt fuel' n (next + 1)
      else ret next
  end.

(** [for n, name, message in errnos: ...] of the table, from the current
    value of [next]. *)
Fixpoint table_for (errnos : list entry) (next : Z) : Py Z :=
  match errnos with
  | [] => ret next
  | (n, name, message) :: rest =>
      next <- while_next_lt (Z.to_nat (n - next)) n next ;;
      print (entry_line next name message) ;;
      table_for rest (next + 1)
  end.

(** One rendering of the table: [next = 0] and the loop. *)
Definition render_table (errnos : list entry) : Py unit :=
  table_for errnos 0 ;; ret tt.

Definition render_decls (errnos : list entry) : Py unit :=
  for_each errnos (fun '(_, name, _) => print (decl_line name)).

Definition render_defs (errnos : list entry) : Py unit :=
  for_each errnos (fun '(n, name, _) => print (def_line n name)).

(** [parse]: the lines of the tool's output as sorted entries. *)
Definition parse (raw : string) : res (list entry) :=
  match parse_lines (splitlines raw) [] with
  | Ret errnos => Ret (sort errnos)
  | Raise e => Raise e
  end.

Definition main (tool : run_result) (argv : list string) : Py unit :=
  raw <- run_stdout tool ;;
  errnos <- lift (parse raw) ;;
  which <- lift (select_which argv) ;;
  if which_is which "decls" then render_decls errnos
  else if which_is which "defs" then render_defs errnos
  else (render_table errnos ;; render_table errnos).

(** A run of the script: [main()] on an empty standard output.  The
    interpreter exits with status 1 when an exception escapes. *)
Definition run_main (tool : run_result) (argv : list string) : console * res unit :=
  main tool argv [].

Definition exit_status (r : console * res unit) : Z :=
  match snd r with
  | Ret _ => 0
  | Raise _ => 1
  end.

(** ** Notions used by the statements *)

(** The integers [a <= i < b], ascending. *)
Definition zrange (a b : Z) : list Z :=
  map (fun k => a + Z.of_nat k) (seq 0 (Z.to_nat (b - a))).

(** The lines one run of the table loop prints from [next], and the
    value of [next] it ends with, as plain functions. *)
Fixpoint table_lines (errnos : list entry) (next : Z) : list string :=
  match errnos with
  | [] => []
  | (n, name, message) :: rest =>
      map empty_line (zrange next n)
        ++ entry_line (Z.max next n) name message
        :: table_lines rest (Z.max next n + 1)
  end.

Fixpoint table_next (errnos : list entry) (next : Z) : Z :=
  match errnos with
  | [] => next
  | (n, _, _) :: rest => table_next rest (Z.max next n + 1)
  end.

(** What slot [i] of a dense table over [errnos] holds: the initializer
    of the entry numbered [i], or the placeholder. *)
Definition slot_line (errnos : list entry) (i : Z) : string :=
  match find (fun t => key t =? i) errnos with
  | Some (_, name, message) => entry_line i name message
  | None => empty_line i
  end.

(** The index [i] written with four decimal digits. *)
Definition digit_char (d : Z) : ascii := ascii_of_N (Z.to_N (48 + d)).
Definition four_digits (i : Z) : string :=
  String (digit_char (i / 1000 mod 10))
    (String (digit_char (i / 100 mod 10))
       (String (digit_char (i / 10 mod 10))
          (String (digit_char (i mod 10)) EmptyString))).

(** [p] holds of the [count] integers from [i] on. *)
Fixpoint all_from (p : Z -> bool) (count : nat) (i : Z) : bool :=
  match count with
  | O => true
  | S count' => p i && all_from p count' (i + 1)
  end.

(** Ascending by number. *)
Definition ascending (l : list entry) : Prop :=
  StronglySorted (fun t u => key t <= key u) l.

(** The entries of [l] numbered [k], in the order of [l]. *)
Definition numbered (k : Z) (l : list entry) : list entry :=
  filter (fun t => key t =? k) l.

(** [l'] is [l] reordered without changing the relative order of the
    entries that tie on their number. *)
Definition stable_reordering (l l' : list entry) : Prop :=
  Permutation l l' /\ forall k, numbered k l' = numbered k l.

(** A malformed line: fewer than three parts, or a second part that is
    no integer literal. *)
Definition is_integer (tok : string) : bool :=
  match int tok with
  | Some _ => true
  | None => false
  end.

Definition malformed (line : string) : bool :=
  let parts := split " " 2 line in
  (List.length parts <? 3)%nat || negb (is_integer (nth 1 parts EmptyString)).

(** The same notion read with general white space, as the words
    "whitespace-separated parts" have it: the tokens of [line.split()],
    cut at runs of white space, none of them empty. *)
Definition is_whitespace (c : ascii) : bool :=
  let n := code c in
  ((9 <=? n) && (n <=? 13))%N || ((28 <=? n) && (n <=? 32))%N
  || (n =? 133)%N || (n =? 160)%N.

Fixpoint whitespace_tokens (s : string) : list string :=
  match s with
  | EmptyString => []
  | String c s' =>
      if is_whitespace c then whitespace_tokens s'
      else
        match s' with
        | EmptyString => [String c EmptyString]
        | String c' _ =>
            if is_whitespace c' then String c EmptyString :: whitespace_tokens s'
            else
              match whitespace_tokens s' with
              | [] => [String c EmptyString]
              | t :: ts => String c t :: ts
              end
        end
  end.

Definition malformed_by_whitespace (line : string) : bool :=
  let parts := whitespace_tokens line in
  (List.length parts <? 3)%nat || negb (is_integer (nth 1 parts EmptyString)).

(** The enumeration utility failed: it could not be started, or it
    returned a non-zero status. *)
Definition tool_failed (tool : run_result) : Prop :=
  match tool with
  | Run_raises _ => True
  | Completed_process returncode _ _ => returncode <> 0
  end.

Fixpoint has_space (s : string) : bool :=
  match s with
  | EmptyString => false
  | String c s' => Ascii.eqb c " " || has_space s'
  end.

Definition TAB : string := String "009" EmptyString.
Definition LF : string := String "010" EmptyString.

(** A line whose three fields are separated by tabs. *)
Definition tab_line (name num message : string) : string :=
  (name ++ TAB ++ num ++ TAB ++ message)%string.

(** The two lines of the running example. *)
Definition sample : string :=
  ("EPERM 1 Operation not permitted" ++ LF
     ++ "ENOENT 2 No such file or directory" ++ LF)%string.

(** The entries of [sample] and the three lines of its table. *)
Definition sample_errnos : list entry :=
  [(1, "EPERM", "Operation not permitted");
   (2, "ENOENT", "No such file or directory")].

(** Entries that leave the slots 0 and 2 unused. *)
Definition gapped_errnos : list entry :=
  [(1, "EPERM", "Operation not permitted");
   (3, "ESRCH", "No such process")].

Definition sample_table : list string :=
  ["/*0000*/ e{},";
   ("/*0001*/ e{" ++ dquote ++ "EPERM" ++ dquote ++ ", "
      ++ dquote ++ "Operation not permitted" ++ dquote ++ "},")%string;
   ("/*0002*/ e{" ++ dquote ++ "ENOENT" ++ dquote ++ ", "
      ++ dquote ++ "No such file or directory" ++ dquote ++ "},")%string].

(** Every character of [s] satisfies [p]. *)
Fixpoint every (p : ascii -> bool) (s : string) : bool :=
  match s with
  | EmptyString => true
  | String c s' => p c && every p s'
  end.

(** [s] holds no line boundary, no lower-case letter. *)
Definition no_break (s : string) : bool := every (fun c => negb (is_linebreak c)) s.
Definition no_lower (s : string) : bool := every (fun c => negb (is_lower c)) s.

(** [s] is ASCII text without a lower-case letter. *)
Definition is_ascii (c : ascii) : bool := (code c <? 128)%N.
Definition plain_upper (s : string) : bool :=
  every (fun c => is_ascii c && negb (is_lower c)) s.

(** [s.upper()], on the letters of ASCII. *)
Fixpoint upper (s : string) : string :=
  match s with
  | EmptyString => EmptyString
  | String c s' => String (to_upper c) (upper s')
  end.

(** The line [name number message] that the tool prints for an entry,
    and the text of a list of entries, one line each, ended by LF. *)
Definition errno_line (t : entry) : string :=
  let '(n, name, message) := t in
  (name ++ " " ++ str n ++ " " ++ message)%string.

Fixpoint errno_text (entries : list entry) : string :=
  match entries with
  | [] => EmptyString
  | t :: rest => (errno_line t ++ LF ++ errno_text rest)%string
  end.

(** The number of decimal digits of [n]. *)
Definition digits_of (n : Z) : N := digit_count (str n).

(** An entry that a line of text can hold: a name without a space, no
    line boundary in the name or the message, and a number within the
    bound of the interpreter on the digits of a conversion. *)
Definition printable (t : entry) : bool :=
  let '(n, name, message) := t in
  negb (has_space name) && no_break name && no_break message
  && (digits_of n <=? max_str_digits)%N.

(** The run ended normally. *)
Definition succeeded (r : console * res unit) : Prop := snd r = Ret tt.

(** ** Integer ranges *)

Lemma zrange_nil a b : b <= a -> zrange a b = [].
Proof.
  intros H. unfold zrange.
  replace (Z.to_nat (b - a)) with O by lia. reflexivity.
Qed.

Lemma zrange_cons a b : a < b -> zrange a b = a :: zrange (a + 1) b.
Proof.
  intros H. unfold zrange.
  replace (Z.to_nat (b - a)) with (S (Z.to_nat (b - (a + 1)))) by lia.
  cbn [seq map]. f_equal; [lia|].
  rewrite <- seq_shift, map_map.
  apply map_ext. intros k. lia.
Qed.

Lemma zrange_length a b : List.length (zrange a b) = Z.to_nat (b - a).
Proof. unfold zrange. now rewrite length_map, length_seq. Qed.

Lemma in_zrange a b i : In i (zrange a b) <-> a <= i < b.
Proof.
  unfold zrange. rewrite in_map_iff. split.
  - intros (k & <- & Hk). apply in_seq in Hk. lia.
  - intros H. exists (Z.to_nat (i - a)). split; [lia|].
    apply in_seq. lia.
Qed.

Lemma zrange_app a b c : a <= b -> b <= c -> zrange a c = zrange a b ++ zrange b c.
Proof.
  intros Hab Hbc.
  remember (Z.to_nat (b - a)) as k eqn:Hk.
  revert a Hab Hk. induction k as [|k IH]; intros a Hab Hk.
  - assert (a = b) by lia. subst a.
    now rewrite (zrange_nil b b) by lia.
  - rewrite (zrange_cons a c), (zrange_cons a b) by lia.
    cbn [app]. f_equal. apply IH; lia.
Qed.

(** ** Running the loops *)

(** The fuel [n - next] is enough: the loop stops because its condition
    is false, having printed the placeholders of [next .. n - 1]. *)
Lemma while_next_lt_run fuel n next out :
  (Z.to_nat (n - next) <= fuel)%nat ->
  while_next_lt fuel n next out
  = (out ++ map empty_line (zrange next n), Ret (Z.max next n)).
Proof.
  revert next out. induction fuel as [|fuel IH]; intros next out Hfuel.
  - cbn. rewrite zrange_nil by lia. cbn. rewrite app_nil_r.
    unfold ret. do 2 f_equal. lia.
  - cbn [while_next_lt]. destruct (Z.ltb_spec next n) as [Hlt|Hge].
    + unfold bind, print. rewrite IH by lia.
      rewrite (zrange_cons next n) by lia. cbn [map].
      rewrite <- app_assoc. cbn [app]. do 2 f_equal. lia.
    + rewrite zrange_nil by lia. cbn. rewrite app_nil_r.
      unfold ret. do 2 f_equal. lia.
Qed.

Lemma while_next_lt_exit n next : (Z.max next n <? n) = false.
Proof. apply Z.ltb_ge. lia. Qed.

Lemma table_for_run errnos next out :
  table_for errnos next out
  = (out ++ table_lines errnos next, Ret (table_next errnos next)).
Proof.
  revert next out. induction errnos as [|[[n name] message] rest IH]; intros next out.
  - cbn. now rewrite app_nil_r.
  - cbn [table_for table_lines table_next]. unfold bind at 1.
    rewrite while_next_lt_run by lia.
    unfold bind, print. rewrite IH.
    now rewrite <- !app_assoc.
Qed.

Lemma render_table_run errnos out :
  render_table errnos out = (out ++ table_lines errnos 0, Ret tt).
Proof. unfold render_table, bind. now rewrite table_for_run. Qed.

Lemma render_decls_run errnos out :
  render_decls errnos out
  = (out ++ map (fun t => decl_line (snd (fst t))) errnos, Ret tt).
Proof.
  unfold render_decls. revert out.
  induction errnos as [|[[n name] message] rest IH]; intros out.
  - cbn. now rewrite app_nil_r.
  - cbn [for_each map]. unfold bind, print. rewrite IH.
    now rewrite <- app_assoc.
Qed.

Lemma render_defs_run errnos out :
  render_defs errnos out
  = (out ++ map (fun t => def_line (key t) (snd (fst t))) errnos, Ret tt).
Proof.
  unfold render_defs. revert out.
  induction errnos as [|[[n name] message] rest IH]; intros out.
  - cbn. now rewrite app_nil_r.
  - cbn [for_each map]. unfold bind, print. rewrite IH.
    now rewrite <- app_assoc.
Qed.

(** What a run of [main] does, phase by phase. *)
Lemma run_main_raises e argv : run_main (Run_raises e) argv = ([], Raise e).
Proof. reflexivity. Qed.

Lemma run_main_parse_error returncode raw err argv e :
  parse raw = Raise e ->
  run_main (Completed_process returncode raw err) argv = ([], Raise e).
Proof.
  intros H. unfold run_main, main, bind, run_stdout, ret, lift. now rewrite H.
Qed.

Lemma run_main_argv_error returncode raw err argv errnos e :
  parse raw = Ret errnos ->
  select_which argv = Raise e ->
  run_main (Completed_process returncode raw err) argv = ([], Raise e).
Proof.
  intros H Hw. unfold run_main, main, bind, run_stdout, ret, lift.
  now rewrite H, Hw.
Qed.

Lemma run_main_renders returncode raw err argv errnos which :
  parse raw = Ret errnos ->
  select_which argv = Ret which ->
  run_main (Completed_process returncode raw err) argv
  = if which_is which "decls" then render_decls errnos []
    else if which_is which "defs" then render_defs errnos []
    else (table_lines errnos 0 ++ table_lines errnos 0, Ret tt).
Proof.
  intros H Hw. unfold run_main, main, bind at 1 2 3, run_stdout, ret, lift.
  rewrite H, Hw.
  destruct (which_is which "decls"); [reflexivity|].
  destruct (which_is which "defs"); [reflexivity|].
  unfold bind. now rewrite !render_table_run.
Qed.

(** ** The sort *)

Section Sort.

Lemma insert_perm t l : Permutation (t :: l) (insert t l).
Proof.
  induction l as [|u l IH]; cbn; [reflexivity|].
  destruct (key t <=? key u); [reflexivity|].
  rewrite perm_swap. now constructor.
Qed.

Lemma sort_perm l : Permutation l (sort l).
Proof.
  induction l as [|t l IH]; cbn; [constructor|].
  rewrite <- insert_perm. now constructor.
Qed.

Lemma insert_ascending t l : ascending l -> ascending (insert t l).
Proof.
  unfold ascending. induction 1 as [|u l Hl IH Hu]; cbn.
  - repeat constructor.
  - destruct (Z.leb_spec (key t) (key u)) as [Hle|Hgt].
    + constructor; [now constructor|].
      constructor; [exact Hle|].
      eapply Forall_impl; [|exact Hu]. cbn. intros v Hv. lia.
    + constructor; [exact IH|].
      eapply Permutation_Forall; [apply insert_perm|].
      constructor; [lia|exact Hu].
Qed.

Lemma sort_ascending l : ascending (sort l).
Proof.
  induction l as [|t l IH]; cbn.
  - constructor.
  - now apply insert_ascending.
Qed.

Lemma numbered_insert k t l : numbered k (insert t l) = numbered k (t :: l).
Proof.
  unfold numbered. induction l as [|u l IH]; [reflexivity|].
  cbn [insert]. destruct (Z.leb_spec (key t) (key u)) as [Hle|Hgt]; [reflexivity|].
  cbn [filter] in *. rewrite IH.
  destruct (Z.eqb_spec (key t) k), (Z.eqb_spec (key u) k); try reflexivity; lia.
Qed.

Lemma sort_numbered k l : numbered k (sort l) = numbered k l.
Proof.
  induction l as [|t l IH]; [reflexivity|].
  cbn [sort]. rewrite numbered_insert. unfold numbered in *. cbn [filter].
  now rewrite IH.
Qed.

Lemma sort_stable l : stable_reordering l (sort l).
Proof. split; [apply sort_perm | intros k; apply sort_numbered]. Qed.

Lemma sort_ascending_id l : ascending l -> sort l = l.
Proof.
  unfold ascending. induction 1 as [|t l Hl IH Ht]; [reflexivity|].
  cbn [sort]. rewrite IH. destruct l as [|u l]; [reflexivity|].
  cbn [insert]. inversion Ht as [|? ? Hu _]; subst.
  destruct (Z.leb_spec (key t) (key u)); [reflexivity|lia].
Qed.

Lemma sort_idempotent l : sort (sort l) = sort l.
Proof. apply sort_ascending_id, sort_ascending. Qed.

Lemma numbered_In k t l : In t (numbered k l) <-> In t l /\ key t = k.
Proof. unfold numbered. rewrite filter_In, Z.eqb_eq. reflexivity. Qed.

(** Two ascending lists with the same entries under every number, in
    the same order, are the same list. *)
Lemma ascending_numbered_eq l1 :
  forall l2, ascending l1 -> ascending l2 ->
  (forall k, numbered k l1 = numbered k l2) -> l1 = l2.
Proof.
  unfold ascending.
  induction l1 as [|t l1 IH]; intros l2 H1 H2 Hk.
  - destruct l2 as [|u l2]; [reflexivity|].
    specialize (Hk (key u)). unfold numbered in Hk. cbn in Hk.
    rewrite Z.eqb_refl in Hk. discriminate.
  - destruct l2 as [|u l2].
    + specialize (Hk (key t)). unfold numbered in Hk. cbn in Hk.
      rewrite Z.eqb_refl in Hk. discriminate.
    + inversion H1 as [|? ? H1' Ht]; subst.
      inversion H2 as [|? ? H2' Hu]; subst.
      assert (Hle1 : key t <= key u).
      { assert (Hin : In u (numbered (key u) (t :: l1))).
        { rewrite Hk. apply numbered_In. split; [now left|reflexivity]. }
        apply numbered_In in Hin. destruct Hin as [[->|Hin] _]; [lia|].
        rewrite Forall_forall in Ht. now apply Ht. }
      assert (Hle2 : key u <= key t).
      { assert (Hin : In t (numbered (key t) (u :: l2))).
        { rewrite <- Hk. apply numbered_In. split; [now left|reflexivity]. }
        apply numbered_In in Hin. destruct Hin as [[->|Hin] _]; [lia|].
        rewrite Forall_forall in Hu. now apply Hu. }
      assert (Heq : t = u).
      { specialize (Hk (key t)). unfold numbered in Hk. cbn [filter] in Hk.
        rewrite Z.eqb_refl in Hk.
        replace (key u =? key t) with true in Hk by (symmetry; apply Z.eqb_eq; lia).
        now injection Hk. }
      subst u. f_equal. apply IH; try assumption.
      intros k. specialize (Hk k). unfold numbered in *. cbn [filter] in Hk.
      destruct (key t =? k); [now injection Hk | exact Hk].
Qed.

(** Every stable sort by number computes [sort]. *)
Lemma sort_unique l l' :
  ascending l' -> (forall k, numbered k l' = numbered k l) -> l' = sort l.
Proof.
  intros Hasc Hk. apply ascending_numbered_eq.
  - exact Hasc.
  - apply sort_ascending.
  - intros k. now rewrite Hk, sort_numbered.
Qed.

End Sort.

(** ** Splitting and parsing *)

Lemma split_length sep n s :
  (1 <= List.length (split sep n s) <= S n)%nat.
Proof.
  revert n. induction s as [|c s IH]; intros [|n]; cbn; try lia.
  destruct (Ascii.eqb c sep).
  - cbn. specialize (IH n). lia.
  - specialize (IH (S n)). destruct (split sep (S n) s); cbn in *; lia.
Qed.

Lemma parse_line_raises line e : parse_line line = Raise e -> e = ValueError.
Proof.
  unfold parse_line.
  destruct (split " " 2 line) as [|a [|b [|c [|d l]]]]; try congruence.
  destruct (int b); congruence.
Qed.

Lemma parse_line_malformed line :
  parse_line line = Raise ValueError <-> malformed line = true.
Proof.
  unfold parse_line, malformed, is_integer.
  pose proof (split_length " " 2 line) as Hlen.
  destruct (split " " 2 line) as [|a [|b [|c [|d l]]]]; cbn in *; try lia;
    try (split; reflexivity).
  destruct (int b); cbn; split; congruence.
Qed.

Lemma parse_lines_ret lines :
  forall acc r,
    parse_lines lines acc = Ret r <->
    exists es, Forall2 (fun line t => parse_line line = Ret t) lines es
               /\ r = acc ++ es.
Proof.
  induction lines as [|line rest IH]; intros acc r; cbn.
  - split.
    + intros [= <-]. exists []. split; [constructor|now rewrite app_nil_r].
    + intros (es & HF & ->). inversion HF; subst. now rewrite app_nil_r.
  - destruct (parse_line line) as [t|e] eqn:Hline.
    + rewrite IH. split.
      * intros (es & HF & ->). exists (t :: es). split; [now constructor|].
        now rewrite <- app_assoc.
      * intros (es & HF & ->). inversion HF as [|? t' ? es' Ht HF']; subst.
        assert (t' = t) by congruence. subst t'.
        exists es'. split; [assumption|]. now rewrite <- app_assoc.
    + split; [discriminate|].
      intros (es & HF & _). inversion HF; subst. congruence.
Qed.

Lemma parse_lines_malformed lines :
  forall acc line,
    In line lines -> malformed line = true ->
    parse_lines lines acc = Raise ValueError.
Proof.
  induction lines as [|l rest IH]; intros acc line Hin Hbad; [destruct Hin|].
  cbn. destruct (parse_line l) as [t|e] eqn:Hl.
  - destruct Hin as [->|Hin].
    + apply parse_line_malformed in Hbad. congruence.
    + now apply IH with (line := line).
  - now rewrite (parse_line_raises _ _ Hl).
Qed.

Lemma parse_ret raw errnos :
  parse raw = Ret errnos <->
  exists es, parse_lines (splitlines raw) [] = Ret es /\ errnos = sort es.
Proof.
  unfold parse. destruct (parse_lines (splitlines raw) []) as [es|e].
  - split.
    + intros [= <-]. now exists es.
    + intros (es' & [= <-] & ->). reflexivity.
  - split; [discriminate|]. intros (es' & H & _). discriminate.
Qed.

Lemma splitlines_nil raw : splitlines raw = [] <-> raw = EmptyString.
Proof.
  split; [|now intros ->].
  destruct raw as [|c s]; [reflexivity|]. cbn.
  destruct (is_linebreak c).
  - destruct s as [|c' s']; [discriminate|].
    destruct ((code c =? 13)%N && (code c' =? 10)%N); discriminate.
  - destruct (splitlines s); discriminate.
Qed.

(** ** The table is dense *)

Lemma slot_line_below l i :
  Forall (fun t => i < key t) l -> slot_line l i = empty_line i.
Proof.
  intros H. unfold slot_line.
  replace (find (fun t => key t =? i) l) with (@None entry); [reflexivity|].
  symmetry. induction H as [|t l Ht _ IH]; [reflexivity|].
  cbn. destruct (Z.eqb_spec (key t) i); [lia|exact IH].
Qed.

Lemma slot_line_head n name message rest :
  slot_line ((n, name, message) :: rest) n = entry_line n name message.
Proof. unfold slot_line. cbn. now rewrite Z.eqb_refl. Qed.

Lemma slot_line_skip n name message rest i :
  i <> n -> slot_line ((n, name, message) :: rest) i = slot_line rest i.
Proof.
  intros H. unfold slot_line. cbn.
  destruct (Z.eqb_spec n i); [congruence|reflexivity].
Qed.

Lemma last_In_bound (P : Z -> Prop) l d :
  l <> [] -> Forall P l -> P (last l d).
Proof.
  intros Hne H. induction H as [|x l Hx Hl IH]; [congruence|].
  destruct l as [|y l]; [exact Hx|].
  change (last (x :: y :: l) d) with (last (y :: l) d).
  apply IH. discriminate.
Qed.

Lemma last_default (l : list Z) d d' : l <> [] -> last l d = last l d'.
Proof.
  induction l as [|x l IH]; [congruence|]. intros _.
  destruct l as [|y l]; [reflexivity|].
  change (last (y :: l) d = last (y :: l) d'). apply IH. discriminate.
Qed.

Lemma table_lines_dense errnos :
  forall next,
    StronglySorted Z.lt (map key errnos) ->
    Forall (fun t => next <= key t) errnos ->
    table_lines errnos next
    = map (slot_line errnos) (zrange next (last (map key errnos) (next - 1) + 1)).
Proof.
  induction errnos as [|[[n name] message] rest IH]; intros next Hs Hge.
  - cbn. now rewrite zrange_nil by lia.
  - cbn [map key fst] in Hs. inversion Hs as [|? ? Hs' Hlt]; subst.
    inversion Hge as [|? ? Hn Hge']; subst. cbn [key fst] in Hn.
    assert (Hrest : Forall (fun t => n + 1 <= key t) rest).
    { rewrite Forall_map in Hlt. eapply Forall_impl; [|exact Hlt]. cbn. lia. }
    assert (Hlow : forall i, In i (zrange next n) ->
                   slot_line ((n, name, message) :: rest) i = empty_line i).
    { intros i Hi. apply in_zrange in Hi. apply slot_line_below.
      constructor; [cbn; lia|].
      eapply Forall_impl; [|exact Hrest]. cbn. lia. }
    cbn [table_lines]. rewrite Z.max_r by lia.
    rewrite IH by assumption. clear IH.
    destruct rest as [|t rest].
    + cbn [map last key fst]. rewrite (zrange_nil (n + 1)) by lia.
      rewrite (zrange_app next n (n + 1)) by lia.
      rewrite (zrange_cons n (n + 1)), (zrange_nil (n + 1)) by lia.
      rewrite map_app. cbn [map]. rewrite slot_line_head.
      f_equal. symmetry. now apply map_ext_in.
    + cbn [map] in Hlt |- *.
      change (last (key (n, name, message) :: key t :: map key rest) (next - 1))
        with (last (key t :: map key rest) (next - 1)).
      rewrite (last_default _ (next - 1) (n + 1 - 1)) by discriminate.
      set (hi := last (key t :: map key rest) (n + 1 - 1)).
      assert (Hhi : n < hi) by (apply last_In_bound; [discriminate|exact Hlt]).
      rewrite (zrange_app next n (hi + 1)) by lia.
      rewrite (zrange_cons n (hi + 1)) by lia.
      rewrite map_app. cbn [map]. rewrite slot_line_head.
      f_equal; [symmetry; now apply map_ext_in|]. f_equal.
      apply map_ext_in. intros i Hi. apply in_zrange in Hi.
      symmetry. apply slot_line_skip. lia.
Qed.

Lemma slot_line_entry errnos :
  StronglySorted Z.lt (map key errnos) ->
  forall n name message,
    In (n, name, message) errnos ->
    slot_line errnos n = entry_line n name message.
Proof.
  induction errnos as [|[[n0 name0] message0] rest IH];
    intros Hs n name message Hin; [destruct Hin|].
  cbn [map key fst] in Hs. inversion Hs as [|? ? Hs' Hlt]; subst.
  destruct Hin as [[= -> -> ->]|Hin]; [apply slot_line_head|].
  rewrite slot_line_skip; [now apply IH|].
  rewrite Forall_map, Forall_forall in Hlt. specialize (Hlt _ Hin). cbn in Hlt. lia.
Qed.

Lemma slot_line_absent errnos i :
  (forall t, In t errnos -> key t <> i) -> slot_line errnos i = empty_line i.
Proof.
  intros H. unfold slot_line.
  destruct (find (fun t => key t =? i) errnos) as [t|] eqn:Hf; [|reflexivity].
  apply find_some in Hf. destruct Hf as [Hin Hk].
  apply Z.eqb_eq in Hk. now apply H in Hin.
Qed.

Lemma key_le_last errnos d :
  StronglySorted Z.lt (map key errnos) ->
  forall t, In t errnos -> key t <= last (map key errnos) d.
Proof.
  induction errnos as [|t0 rest IH]; intros Hs t Hin; [destruct Hin|].
  cbn [map] in Hs. inversion Hs as [|? ? Hs' Hlt]; subst.
  destruct rest as [|t1 rest]; [destruct Hin as [->|[]]; cbn; lia|].
  cbn [map] in *.
  change (last (key t0 :: key t1 :: map key rest) d)
    with (last (key t1 :: map key rest) d).
  destruct Hin as [->|Hin].
  - apply Z.lt_le_incl.
    apply (last_In_bound (fun k => key t < k)); [discriminate|exact Hlt].
  - now apply IH.
Qed.

Lemma zrange_nth_error a b k :
  (k < Z.to_nat (b - a))%nat -> nth_error (zrange a b) k = Some (a + Z.of_nat k).
Proof.
  intros H. unfold zrange. rewrite nth_error_map, nth_error_seq.
  destruct (Nat.ltb_spec k (Z.to_nat (b - a))); [reflexivity|lia].
Qed.

(** Whatever the entries, the line at position [k] of a rendering that
    starts at [next] carries the index [next + k]. *)
Lemma table_lines_index errnos :
  forall next k line,
    nth_error (table_lines errnos next) k = Some line ->
    line = empty_line (next + Z.of_nat k) \/
    exists n name message,
      In (n, name, message) errnos /\
      line = entry_line (next + Z.of_nat k) name message.
Proof.
  induction errnos as [|[[n name] message] rest IH]; intros next k line Hk.
  - destruct k; discriminate.
  - cbn [table_lines] in Hk.
    set (m := Z.to_nat (n - next)) in *.
    assert (Hlen : List.length (map empty_line (zrange next n)) = m)
      by now rewrite length_map, zrange_length.
    destruct (Nat.lt_ge_cases k m) as [Hlt|Hge].
    + rewrite nth_error_app1 in Hk by lia.
      rewrite nth_error_map, zrange_nth_error in Hk by exact Hlt.
      cbn in Hk. injection Hk as <-. now left.
    + rewrite nth_error_app2 in Hk by lia. rewrite Hlen in Hk.
      destruct (k - m)%nat as [|j] eqn:Hj; cbn [nth_error] in Hk.
      * injection Hk as <-. right. exists n, name, message.
        split; [now left|].
        replace (next + Z.of_nat k) with (Z.max next n) by (subst m; lia).
        reflexivity.
      * apply IH in Hk.
        replace (Z.max next n + 1 + Z.of_nat j) with (next + Z.of_nat k) in Hk
          by (subst m; lia).
        destruct Hk as [->|(n' & name' & message' & Hin & ->)]; [now left|].
        right. exists n', name', message'. split; [now right|reflexivity].
Qed.

(** ** The index field *)

Lemma all_from_spec p count :
  forall i, all_from p count i = true ->
  forall j, i <= j < i + Z.of_nat count -> p j = true.
Proof.
  induction count as [|count IH]; intros i H j Hj; [lia|].
  cbn [all_from] in H. apply andb_true_iff in H. destruct H as [Hi H].
  destruct (Z.eq_dec j i) as [->|Hne]; [exact Hi|].
  apply (IH (i + 1)); [exact H|lia].
Qed.

Lemma format_04_small_check :
  all_from (fun i => String.eqb (format_04 i) (four_digits i)) (Z.to_nat 10000) 0 = true.
Proof. vm_compute. reflexivity. Qed.

Lemma format_04_four_digits i : 0 <= i < 10000 -> format_04 i = four_digits i.
Proof.
  intros H. apply String.eqb_eq.
  apply (all_from_spec _ _ _ format_04_small_check). lia.
Qed.

(** From 1000 on the decimal form has four digits or more, and nothing
    is padded. *)
Lemma of_lu_bound d :
  (DecimalPos.Unsigned.of_lu d < 10 ^ N.of_nat (Decimal.nb_digits d))%N.
Proof.
  induction d; cbn [DecimalPos.Unsigned.of_lu Decimal.nb_digits];
    [cbn; lia | rewrite Nat2N.inj_succ, N.pow_succ_r'; lia ..].
Qed.

Lemma length_string_of_uint d :
  String.length (NilEmpty.string_of_uint d) = Decimal.nb_digits d.
Proof. induction d; cbn; congruence. Qed.

Lemma str_length_large i : 1000 <= i -> (4 <= String.length (str i))%nat.
Proof.
  intros H. destruct i as [|p|p]; try lia.
  unfold str. cbn [Z.to_int NilZero.string_of_int].
  assert (Hn : (4 <= Decimal.nb_digits (Pos.to_uint p))%nat).
  { pose proof (DecimalPos.Unsigned.of_to p) as Hp.
    rewrite DecimalPos.Unsigned.of_uint_alt in Hp.
    pose proof (of_lu_bound (Decimal.rev (Pos.to_uint p))) as Hb.
    rewrite Hp, DecimalFacts.nb_digits_rev in Hb.
    destruct (Nat.le_gt_cases 4 (Decimal.nb_digits (Pos.to_uint p))) as [Hle|Hgt];
      [exact Hle|].
    assert (Hpow : (10 ^ N.of_nat (Decimal.nb_digits (Pos.to_uint p)) <= 10 ^ 3)%N)
      by (apply N.pow_le_mono_r; lia).
    change (10 ^ 3)%N with 1000%N in Hpow. lia. }
  unfold NilZero.string_of_uint.
  destruct (Pos.to_uint p) eqn:E;
    [cbn in Hn; lia | rewrite length_string_of_uint; exact Hn ..].
Qed.

Lemma format_04_large i : 1000 <= i -> format_04 i = str i.
Proof.
  intros H. unfold format_04.
  destruct (Z.ltb_spec i 0); [lia|]. rewrite Z.abs_eq by lia.
  pose proof (str_length_large i H) as Hl. cbn [append String.length].
  replace (4 - 0 - String.length (str i))%nat with O by lia. reflexivity.
Qed.

(** ** Splitting on the space character *)

Lemma append_nil_r s : (s ++ EmptyString)%string = s.
Proof. induction s as [|c s IH]; cbn; [reflexivity|now rewrite IH]. Qed.

Lemma append_assoc s t u : ((s ++ t) ++ u)%string = (s ++ t ++ u)%string.
Proof. induction s as [|c s IH]; cbn; [reflexivity|now rewrite IH]. Qed.

Lemma length_append s t :
  String.length (s ++ t) = (String.length s + String.length t)%nat.
Proof. induction s as [|c s IH]; cbn; [reflexivity|now rewrite IH]. Qed.

Lemma has_space_append s t : has_space (s ++ t) = has_space s || has_space t.
Proof.
  induction s as [|c s IH]; cbn; [reflexivity|].
  now rewrite IH, orb_assoc.
Qed.

(** A prefix without a space stays in the first part. *)
Lemma split_prefix p n s :
  has_space p = false ->
  split " " n (p ++ s)
  = (p ++ hd EmptyString (split " " n s))%string :: tl (split " " n s).
Proof.
  intros Hp. induction p as [|c p IH].
  - cbn [append]. pose proof (split_length " " n s) as Hlen.
    destruct (split " " n s); cbn in *; [lia|reflexivity].
  - cbn in Hp. apply orb_false_iff in Hp. destruct Hp as [Hc Hp].
    destruct n as [|n].
    + cbn. destruct s, p; reflexivity.
    + cbn [append split]. rewrite Hc, (IH Hp). reflexivity.
Qed.

Lemma split_no_space n s : has_space s = false -> split " " n s = [s].
Proof.
  intros H. rewrite <- (append_nil_r s) at 1. rewrite split_prefix by exact H.
  destruct n; cbn; now rewrite append_nil_r.
Qed.

Lemma split_at_space p n s :
  has_space p = false ->
  split " " (S n) (p ++ String " " s) = p :: split " " n s.
Proof.
  intros Hp. rewrite split_prefix by exact Hp.
  cbn. now rewrite append_nil_r.
Qed.

(** A line [name num message] with single spaces is cut into its three
    fields, whatever spaces the message holds. *)
Lemma split_fields name num message :
  has_space name = false -> has_space num = false ->
  split " " 2 (name ++ String " " (num ++ String " " message))
  = [name; num; message].
Proof.
  intros Hname Hnum. rewrite split_at_space by exact Hname.
  rewrite split_at_space by exact Hnum. destruct message; reflexivity.
Qed.

Lemma tab_line_prefix name num message :
  tab_line name num message
  = ((name ++ TAB ++ num ++ TAB) ++ message)%string.
Proof. unfold tab_line. now rewrite !append_assoc. Qed.

(** ** The mode argument *)

Lemma select_which_argument script arg rest :
  select_which (script :: arg :: rest) = Ret (Some arg).
Proof. reflexivity. Qed.

Lemma select_which_no_argument script : select_which [script] = Raise IndexError.
Proof. reflexivity. Qed.

(** An argument other than [decls] and [defs] selects the table. *)
Lemma other_argument_renders_table returncode raw err errnos script arg rest :
  parse raw = Ret errnos ->
  arg <> "decls" -> arg <> "defs" ->
  run_main (Completed_process returncode raw err) (script :: arg :: rest)
  = (table_lines errnos 0 ++ table_lines errnos 0, Ret tt).
Proof.
  intros Hp Hdecls Hdefs.
  rewrite (run_main_renders _ _ _ _ _ _ Hp (select_which_argument _ _ _)).
  cbn [which_is].
  apply String.eqb_neq in Hdecls, Hdefs. now rewrite Hdecls, Hdefs.
Qed.

(** ** The claims *)

(** C1 (defect of the code): the claim says that a run with no
    command-line argument prints the table twice.  With no argument
    [sys.argv] is the script name alone, its length 1 passes the test
    [len(sys.argv) > 0], and [sys.argv[1]] raises [IndexError]: the run
    prints nothing and ends on the exception, whatever well-formed text
    the tool gave. *)
Theorem C1_no_argument_raises returncode raw err errnos script :
  parse raw = Ret errnos ->
  run_main (Completed_process returncode raw err) [script] = ([], Raise IndexError)
  /\ exit_status (run_main (Completed_process returncode raw err) [script]) = 1.
Proof.
  intros Hp.
  rewrite (run_main_argv_error _ _ _ _ _ _ Hp (select_which_no_argument script)).
  split; reflexivity.
Qed.

Lemma C1_no_argument_raises_witness :
  parse sample = Ret sample_errnos /\
  run_main (Completed_process 0 sample EmptyString) ["errnos.py"]
  = ([], Raise IndexError) /\
  exit_status (run_main (Completed_process 0 sample EmptyString) ["errnos.py"]) = 1.
Proof.
  split; [reflexivity|].
  apply (C1_no_argument_raises 0 sample EmptyString sample_errnos "errnos.py").
  reflexivity.
Defined.

(** C2: for entries whose numbers are strictly increasing and not
    negative, the last being [nN], one rendering of the table prints
    exactly [nN + 1] lines: the lines of the slots 0, 1, ..., [nN] in
    this order, where the slot of an entry's number holds that entry's
    initializer and every other slot holds the placeholder. *)
Theorem C2_table_is_dense errnos nN :
  StronglySorted Z.lt (map key errnos) ->
  Forall (fun t => 0 <= key t) errnos ->
  last (map key errnos) (-1) = nN ->
  exists block,
    render_table errnos [] = (block, Ret tt) /\
    List.length block = Z.to_nat (nN + 1) /\
    block = map (slot_line errnos) (zrange 0 (nN + 1)) /\
    (forall n name message,
        In (n, name, message) errnos ->
        nth_error block (Z.to_nat n) = Some (entry_line n name message)) /\
    (forall i,
        0 <= i <= nN ->
        (forall t, In t errnos -> key t <> i) ->
        nth_error block (Z.to_nat i) = Some (empty_line i)).
Proof.
  intros Hs Hge Hlast. exists (table_lines errnos 0).
  rewrite render_table_run. split; [reflexivity|].
  rewrite (table_lines_dense errnos 0 Hs Hge).
  change (0 - 1) with (-1). rewrite Hlast.
  assert (Hnth : forall i, 0 <= i <= nN ->
            nth_error (map (slot_line errnos) (zrange 0 (nN + 1))) (Z.to_nat i)
            = Some (slot_line errnos i)).
  { intros i Hi. rewrite nth_error_map, zrange_nth_error by lia.
    cbn. do 2 f_equal. lia. }
  split; [|split; [reflexivity|split]].
  - rewrite length_map, zrange_length. f_equal. lia.
  - intros n name message Hin.
    rewrite Hnth.
    + f_equal. now apply slot_line_entry.
    + rewrite Forall_forall in Hge. pose proof (Hge _ Hin) as H0.
      pose proof (key_le_last errnos (-1) Hs _ Hin) as H1.
      cbn [key fst] in H0, H1. lia.
  - intros i Hi Habsent. rewrite Hnth by exact Hi.
    f_equal. now apply slot_line_absent.
Qed.

Lemma C2_table_is_dense_witness :
  StronglySorted Z.lt (map key gapped_errnos) /\
  Forall (fun t => 0 <= key t) gapped_errnos /\
  last (map key gapped_errnos) (-1) = 3 /\
  exists block,
    render_table gapped_errnos [] = (block, Ret tt) /\
    List.length block = Z.to_nat (3 + 1) /\
    block = map (slot_line gapped_errnos) (zrange 0 (3 + 1)) /\
    (forall n name message,
        In (n, name, message) gapped_errnos ->
        nth_error block (Z.to_nat n) = Some (entry_line n name message)) /\
    (forall i,
        0 <= i <= 3 ->
        (forall t, In t gapped_errnos -> key t <> i) ->
        nth_error block (Z.to_nat i) = Some (empty_line i)).
Proof.
  assert (Hs : StronglySorted Z.lt (map key gapped_errnos)).
  { cbn. repeat constructor. }
  assert (Hge : Forall (fun t => 0 <= key t) gapped_errnos).
  { repeat constructor; cbn; lia. }
  split; [exact Hs|]. split; [exact Hge|]. split; [reflexivity|].
  apply (C2_table_is_dense gapped_errnos 3 Hs Hge). reflexivity.
Defined.

(** C3 (as amended): when the tool cannot be started, the exception of
    the subprocess call escapes, nothing is printed and the exit status
    is 1.  When the tool runs, its return code is never looked at: the
    run is the same as for return code 0 with the same output text. *)
Theorem C3_tool_failure argv :
  (forall e,
      run_main (Run_raises e) argv = ([], Raise e) /\
      exit_status (run_main (Run_raises e) argv) = 1) /\
  (forall returncode raw err,
      run_main (Completed_process returncode raw err) argv
      = run_main (Completed_process 0 raw err) argv).
Proof. split; [intros e; split; reflexivity | reflexivity]. Qed.

(** C3, the claim as stated fails: the tool returned status 1 and the
    run still printed a declaration and ended with status 0. *)
Lemma C3_nonzero_status_is_ignored :
  tool_failed (Completed_process 1 "EPERM 1 Operation not permitted" EmptyString) /\
  run_main (Completed_process 1 "EPERM 1 Operation not permitted" EmptyString)
           ["errnos.py"; "decls"]
  = (["static const ioerr Eperm;"], Ret tt) /\
  exit_status
    (run_main (Completed_process 1 "EPERM 1 Operation not permitted" EmptyString)
              ["errnos.py"; "decls"]) = 0.
Proof. split; [cbn; lia|]. split; reflexivity. Qed.

(** C4 (as amended): when some line of the tool's output is malformed
    in the sense of the code (cut at its first two single spaces it has
    fewer than three parts, or its second part is no integer for
    [int]), the run ends on [ValueError] with exit status 1 and has
    printed nothing, whatever the arguments. *)
Theorem C4_malformed_line_is_fatal returncode raw err argv line :
  In line (splitlines raw) ->
  malformed line = true ->
  run_main (Completed_process returncode raw err) argv = ([], Raise ValueError)
  /\ exit_status (run_main (Completed_process returncode raw err) argv) = 1.
Proof.
  intros Hin Hbad.
  assert (Hp : parse raw = Raise ValueError).
  { unfold parse. now rewrite (parse_lines_malformed _ [] line Hin Hbad). }
  rewrite (run_main_parse_error _ _ _ _ _ Hp). split; reflexivity.
Qed.

Lemma C4_malformed_line_is_fatal_witness :
  In "ENOENT" (splitlines ("EPERM 1 Operation not permitted" ++ LF ++ "ENOENT")%string) /\
  malformed "ENOENT" = true /\
  run_main (Completed_process 0 ("EPERM 1 Operation not permitted" ++ LF ++ "ENOENT")%string
                              EmptyString) ["errnos.py"; "table"]
  = ([], Raise ValueError) /\
  exit_status
    (run_main (Completed_process 0 ("EPERM 1 Operation not permitted" ++ LF ++ "ENOENT")%string
                                 EmptyString) ["errnos.py"; "table"]) = 1.
Proof.
  assert (Hin : In "ENOENT"
                   (splitlines ("EPERM 1 Operation not permitted" ++ LF ++ "ENOENT")%string)).
  { vm_compute. right. left. reflexivity. }
  split; [exact Hin|]. split; [reflexivity|].
  apply (C4_malformed_line_is_fatal 0 _ EmptyString ["errnos.py"; "table"] "ENOENT" Hin).
  reflexivity.
Defined.

(** C4, the claim as stated fails: read with white space in general,
    the line [A 1 ] with nothing after its second space has two tokens
    only, so it is malformed; yet the code cuts it into the name, the
    number and an empty message, and the run prints the table with this
    entry and ends with status 0. *)
Lemma C4_line_with_two_tokens_is_accepted :
  whitespace_tokens "A 1 " = ["A"; "1"] /\
  malformed_by_whitespace "A 1 " = true /\
  run_main (Completed_process 0 "A 1 " EmptyString) ["errnos.py"; "table"]
  = ([empty_line 0; entry_line 1 "A" EmptyString;
      empty_line 0; entry_line 1 "A" EmptyString], Ret tt) /\
  exit_status
    (run_main (Completed_process 0 "A 1 " EmptyString) ["errnos.py"; "table"]) = 0.
Proof. repeat split; reflexivity. Qed.

(** C5: in table mode (the mode argument is neither [decls] nor
    [defs]) the run prints the block of lines of one rendering of the
    table and then the very same block again, and nothing else. *)
Theorem C5_table_is_printed_twice returncode raw err argv errnos which :
  parse raw = Ret errnos ->
  select_which argv = Ret which ->
  which_is which "decls" = false ->
  which_is which "defs" = false ->
  exists block,
    render_table errnos [] = (block, Ret tt) /\
    run_main (Completed_process returncode raw err) argv = (block ++ block, Ret tt).
Proof.
  intros Hp Hw Hdecls Hdefs. exists (table_lines errnos 0).
  rewrite render_table_run. split; [reflexivity|].
  rewrite (run_main_renders _ _ _ _ _ _ Hp Hw). now rewrite Hdecls, Hdefs.
Qed.

Lemma C5_table_is_printed_twice_witness :
  parse sample = Ret sample_errnos /\
  select_which ["errnos.py"; "table"] = Ret (Some "table") /\
  exists block,
    render_table sample_errnos [] = (block, Ret tt) /\
    run_main (Completed_process 0 sample EmptyString) ["errnos.py"; "table"]
    = (block ++ block, Ret tt).
Proof.
  split; [reflexivity|]. split; [reflexivity|].
  apply (C5_table_is_printed_twice 0 sample EmptyString ["errnos.py"; "table"]
           sample_errnos (Some "table")); reflexivity.
Defined.

(** C6: when parsing succeeds, its result holds the entries of the
    lines, ascending by number, reordered without changing the relative
    order of the entries that tie on their number; sorting it again
    gives the same list, as does sorting any ascending list. *)
Theorem C6_parse_sorts_stably raw errnos :
  parse raw = Ret errnos ->
  exists entries,
    Forall2 (fun line t => parse_line line = Ret t) (splitlines raw) entries /\
    ascending errnos /\
    stable_reordering entries errnos /\
    sort errnos = errnos /\
    (forall l, ascending l -> sort l = l).
Proof.
  intros Hp. apply parse_ret in Hp. destruct Hp as (entries & Hl & ->).
  exists entries. apply parse_lines_ret in Hl. destruct Hl as (es & HF & ->).
  cbn [app].
  split; [exact HF|]. split; [apply sort_ascending|].
  split; [apply sort_stable|].
  split; [apply sort_idempotent | apply sort_ascending_id].
Qed.

Lemma C6_parse_sorts_stably_witness :
  parse ("B 3 x" ++ LF ++ "A 1 y" ++ LF ++ "C 1 z")%string
  = Ret [(1, "A", "y"); (1, "C", "z"); (3, "B", "x")] /\
  exists entries,
    Forall2 (fun line t => parse_line line = Ret t)
            (splitlines ("B 3 x" ++ LF ++ "A 1 y" ++ LF ++ "C 1 z")%string) entries /\
    ascending [(1, "A", "y"); (1, "C", "z"); (3, "B", "x")] /\
    stable_reordering entries [(1, "A", "y"); (1, "C", "z"); (3, "B", "x")] /\
    sort [(1, "A", "y"); (1, "C", "z"); (3, "B", "x")]
    = [(1, "A", "y"); (1, "C", "z"); (3, "B", "x")] /\
    (forall l, ascending l -> sort l = l).
Proof.
  split; [reflexivity|].
  apply (C6_parse_sorts_stably ("B 3 x" ++ LF ++ "A 1 y" ++ LF ++ "C 1 z")%string).
  reflexivity.
Defined.

(** C7: the line at position [k] of a rendering of the table is
    [/*NNNN*/ e{},] or [/*NNNN*/ e{"name", "message"},] for an entry of
    the list, where [NNNN] is [k] formatted by [04]: its four decimal
    digits below 10000, its plain decimal form from there on.  On the
    two lines of the example the table is the empty slot 0, then the
    slots of [EPERM] and [ENOENT]. *)
Theorem C7_table_line_format :
  (forall errnos block k line,
      render_table errnos [] = (block, Ret tt) ->
      nth_error block k = Some line ->
      line = ("/*" ++ format_04 (Z.of_nat k) ++ "*/ e{},")%string \/
      exists n name message,
        In (n, name, message) errnos /\
        line = ("/*" ++ format_04 (Z.of_nat k) ++ "*/ e{"
                     ++ dquote ++ name ++ dquote ++ ", "
                     ++ dquote ++ message ++ dquote ++ "},")%string) /\
  (forall i, 0 <= i < 10000 -> format_04 i = four_digits i) /\
  (forall i, 10000 <= i -> format_04 i = str i) /\
  run_main (Completed_process 0 sample EmptyString) ["errnos.py"; "table"]
  = (sample_table ++ sample_table, Ret tt).
Proof.
  repeat split.
  - intros errnos block k line Hrun Hk.
    rewrite render_table_run in Hrun. injection Hrun as <-.
    apply (table_lines_index errnos 0 k line) in Hk. exact Hk.
  - apply format_04_four_digits.
  - intros i Hi. apply format_04_large. lia.
Qed.

Lemma C7_table_line_format_witness :
  render_table sample_errnos [] = (sample_table, Ret tt) /\
  nth_error sample_table 1
  = Some ("/*0001*/ e{" ++ dquote ++ "EPERM" ++ dquote ++ ", "
            ++ dquote ++ "Operation not permitted" ++ dquote ++ "},")%string /\
  four_digits 1 = "0001" /\
  (("/*0001*/ e{" ++ dquote ++ "EPERM" ++ dquote ++ ", "
      ++ dquote ++ "Operation not permitted" ++ dquote ++ "},")%string
   = ("/*" ++ format_04 (Z.of_nat 1) ++ "*/ e{},")%string \/
   exists n name message,
     In (n, name, message) sample_errnos /\
     ("/*0001*/ e{" ++ dquote ++ "EPERM" ++ dquote ++ ", "
        ++ dquote ++ "Operation not permitted" ++ dquote ++ "},")%string
     = ("/*" ++ format_04 (Z.of_nat 1) ++ "*/ e{"
             ++ dquote ++ name ++ dquote ++ ", "
             ++ dquote ++ message ++ dquote ++ "},")%string).
Proof.
  split; [reflexivity|]. split; [reflexivity|]. split; [reflexivity|].
  apply (proj1 C7_table_line_format sample_errnos sample_table 1%nat); reflexivity.
Defined.

(** C8: the lines of [decls] and of [defs] are built from the same
    entries in the same order, the identifier of an entry being in both
    [title] of its name, a function of the name alone.  On the two lines
    of the example the declarations are those of [Eperm] and [Enoent],
    and the definitions bind them to 1 and 2. *)
Theorem C8_title_cased_identifiers :
  (forall returncode raw err script rest errnos,
      parse raw = Ret errnos ->
      run_main (Completed_process returncode raw err) (script :: "decls" :: rest)
      = (map (fun t : entry =>
                let '(_, name, _) := t in
                ("static const ioerr " ++ title name ++ ";")%string) errnos,
         Ret tt) /\
      run_main (Completed_process returncode raw err) (script :: "defs" :: rest)
      = (map (fun t : entry =>
                let '(n, name, _) := t in
                ("constexpr ioerr ioerr::" ++ title name ++ "(" ++ str n ++ ");")%string)
             errnos,
         Ret tt)) /\
  run_main (Completed_process 0 sample EmptyString) ["errnos.py"; "decls"]
  = (["static const ioerr Eperm;"; "static const ioerr Enoent;"], Ret tt) /\
  run_main (Completed_process 0 sample EmptyString) ["errnos.py"; "defs"]
  = (["constexpr ioerr ioerr::Eperm(1);"; "constexpr ioerr ioerr::Enoent(2);"], Ret tt).
Proof.
  split; [|split; reflexivity].
  intros returncode raw err script rest errnos Hp. split.
  - rewrite (run_main_renders _ _ _ _ _ _ Hp (select_which_argument _ _ _)).
    cbn [which_is String.eqb Ascii.eqb Bool.eqb]. rewrite render_decls_run.
    cbn [app]. f_equal. apply map_ext. now intros [[n name] message].
  - rewrite (run_main_renders _ _ _ _ _ _ Hp (select_which_argument _ _ _)).
    cbn [which_is String.eqb Ascii.eqb Bool.eqb]. rewrite render_defs_run.
    cbn [app]. f_equal. apply map_ext. now intros [[n name] message].
Qed.

Lemma C8_title_cased_identifiers_witness :
  parse sample = Ret sample_errnos /\
  run_main (Completed_process 0 sample EmptyString) ["errnos.py"; "decls"]
  = (map (fun t : entry =>
            let '(_, name, _) := t in
            ("static const ioerr " ++ title name ++ ";")%string) sample_errnos,
     Ret tt).
Proof.
  split; [reflexivity|].
  apply (proj1 C8_title_cased_identifiers 0 sample EmptyString "errnos.py" []
           sample_errnos).
  reflexivity.
Defined.

(** C9 (as amended): fields are cut at the single space character only,
    at the first two spaces.  For a name and a number token without a
    space: the line [name num message] parses when the token is an
    integer, spaces of the message included; two spaces after the name
    give an empty second token and [ValueError]; and a line with tabs
    between its fields is cut at the first two spaces of its message, if
    any, so that it raises [ValueError] unless the text between them is
    an integer, and is never parsed into its name, number and message. *)
Theorem C9_split_on_space_only name num message rest :
  has_space name = false ->
  has_space num = false ->
  parse_line (name ++ " " ++ num ++ " " ++ message)
  = match int num with
    | Some n => Ret (n, name, message)
    | None => Raise ValueError
    end /\
  parse_line (name ++ " " ++ " " ++ rest) = Raise ValueError /\
  parse_line (tab_line name num message)
  = match split " " 2 message with
    | [a; tok; c] =>
        match int tok with
        | Some n => Ret (n, tab_line name num a, c)
        | None => Raise ValueError
        end
    | _ => Raise ValueError
    end /\
  (forall n, parse_line (tab_line name num message) <> Ret (n, name, message)).
Proof.
  intros Hname Hnum.
  assert (Htab : parse_line (tab_line name num message)
                 = match split " " 2 message with
                   | [a; tok; c] =>
                       match int tok with
                       | Some n => Ret (n, tab_line name num a, c)
                       | None => Raise ValueError
                       end
                   | _ => Raise ValueError
                   end).
  { unfold parse_line. rewrite tab_line_prefix, split_prefix.
    - pose proof (split_length " " 2 message) as Hlen.
      destruct (split " " 2 message) as [|a [|tok [|c [|d l]]]];
        cbn [hd tl List.length] in *; try lia; try reflexivity.
      now rewrite tab_line_prefix.
    - rewrite !has_space_append, Hname, Hnum. reflexivity. }
  split; [|split; [|split; [exact Htab|]]].
  - unfold parse_line. cbn [append].
    now rewrite (split_fields name num message Hname Hnum).
  - unfold parse_line. cbn [append].
    rewrite split_at_space by exact Hname. destruct rest; reflexivity.
  - intros n. rewrite Htab.
    destruct (split " " 2 message) as [|a [|tok [|c [|d l]]]]; try discriminate.
    destruct (int tok); [|discriminate].
    intros [= _ Hn _]. apply (f_equal String.length) in Hn.
    unfold tab_line in Hn. rewrite !length_append in Hn. cbn in Hn. lia.
Qed.

Lemma C9_split_on_space_only_witness :
  has_space "EPERM" = false /\
  has_space "1" = false /\
  parse_line ("EPERM" ++ " " ++ "1" ++ " " ++ "Operation not permitted")
  = Ret (1, "EPERM", "Operation not permitted") /\
  parse_line ("EPERM" ++ " " ++ " " ++ "1 Operation not permitted") = Raise ValueError /\
  parse_line (tab_line "EPERM" "1" "Operation not permitted") = Raise ValueError /\
  (forall n, parse_line (tab_line "EPERM" "1" "Operation not permitted")
             <> Ret (n, "EPERM", "Operation not permitted")).
Proof.
  split; [reflexivity|]. split; [reflexivity|].
  apply (C9_split_on_space_only "EPERM" "1" "Operation not permitted"
           "1 Operation not permitted"); reflexivity.
Defined.

(** C9, the claim as stated fails: this line has tabs between its three
    fields, yet it raises nothing; it is parsed as the entry numbered 2
    whose name holds the tabs, and [defs] prints it with exit status 0. *)
Lemma C9_tab_line_can_parse :
  parse_line (tab_line "E" "1" "code 2 x") = Ret (2, tab_line "E" "1" "code", "x") /\
  exit_status (run_main (Completed_process 0 (tab_line "E" "1" "code 2 x") EmptyString)
                        ["errnos.py"; "defs"]) = 0.
Proof. split; reflexivity. Qed.

(** C10: when the tool's output has no line, a run with a mode argument
    prints nothing and ends normally, with exit status 0: the table has
    no line either, not even a placeholder for index 0. *)
Theorem C10_empty_output returncode raw err script arg rest :
  splitlines raw = [] ->
  run_main (Completed_process returncode raw err) (script :: arg :: rest) = ([], Ret tt)
  /\ exit_status
       (run_main (Completed_process returncode raw err) (script :: arg :: rest)) = 0.
Proof.
  intros Hraw.
  assert (Hp : parse raw = Ret []) by (unfold parse; now rewrite Hraw).
  rewrite (run_main_renders _ _ _ _ _ _ Hp (select_which_argument _ _ _)).
  cbn [which_is].
  destruct (String.eqb arg "decls"); [split; reflexivity|].
  destruct (String.eqb arg "defs"); split; reflexivity.
Qed.

Lemma C10_empty_output_witness :
  splitlines EmptyString = [] /\
  run_main (Completed_process 0 EmptyString EmptyString) ["errnos.py"; "table"]
  = ([], Ret tt) /\
  exit_status
    (run_main (Completed_process 0 EmptyString EmptyString) ["errnos.py"; "table"]) = 0.
Proof.
  split; [reflexivity|].
  apply (C10_empty_output 0 EmptyString EmptyString "errnos.py" "table" []).
  reflexivity.
Defined.

(** * Further properties of the script *)

(** ** Decimal forms read back *)

Lemma int_digits_acc d :
  forall acc,
    int_digits true (Z.pos acc) (NilEmpty.string_of_uint d)
    = Some (Z.pos (Pos.of_uint_acc d acc)).
Proof.
  induction d; intros acc; cbn [NilEmpty.string_of_uint Pos.of_uint_acc];
    [reflexivity | ..];
    (cbn [int_digits]; change (is_digit _) with true; cbv iota;
     rewrite <- IHd; f_equal;
     match goal with
     | |- context [digit_value ?c] =>
         let v := eval vm_compute in (digit_value c) in
         change (digit_value c) with v
     end; lia).
Qed.

Lemma int_digits_uint d :
  int_digits true 0 (NilEmpty.string_of_uint d) = Some (Z.of_N (Pos.of_uint d)).
Proof.
  induction d; cbn [NilEmpty.string_of_uint Pos.of_uint];
    [reflexivity | exact IHd | ..];
    (cbn [int_digits Z.of_N]; change (is_digit _) with true; cbv iota;
     rewrite <- int_digits_acc; reflexivity).
Qed.

Lemma int_digits_first b acc d :
  d <> Decimal.Nil ->
  int_digits b acc (NilEmpty.string_of_uint d)
  = int_digits true acc (NilEmpty.string_of_uint d).
Proof. destruct d; [congruence | reflexivity ..]. Qed.

Lemma int_literal_uint d :
  d <> Decimal.Nil ->
  int_literal (NilEmpty.string_of_uint d) = Some (Z.of_N (Pos.of_uint d)).
Proof.
  intros Hd. rewrite <- int_digits_uint, <- (int_digits_first false 0 d Hd).
  destruct d; [congruence | reflexivity ..].
Qed.

Lemma str_pos p : str (Z.pos p) = NilEmpty.string_of_uint (Pos.to_uint p).
Proof.
  unfold str. cbn [Z.to_int NilZero.string_of_int]. unfold NilZero.string_of_uint.
  pose proof (DecimalPos.Unsigned.to_uint_nonnil p) as Hp.
  destruct (Pos.to_uint p); [congruence | reflexivity ..].
Qed.

Lemma str_neg p : str (Z.neg p) = String "-" (str (Z.pos p)).
Proof. reflexivity. Qed.

Lemma int_digits_str_pos b p : int_digits b 0 (str (Z.pos p)) = Some (Z.pos p).
Proof.
  rewrite str_pos, int_digits_first by apply DecimalPos.Unsigned.to_uint_nonnil.
  now rewrite int_digits_uint, DecimalPos.Unsigned.of_to.
Qed.

Lemma int_literal_minus s :
  int_literal (String "-" s) = option_map Z.opp (int_digits false 0 s).
Proof. reflexivity. Qed.

Lemma int_literal_str n : int_literal (str n) = Some n.
Proof.
  destruct n as [|p|p]; [reflexivity| |].
  - rewrite str_pos, int_literal_uint by apply DecimalPos.Unsigned.to_uint_nonnil.
    now rewrite DecimalPos.Unsigned.of_to.
  - now rewrite str_neg, int_literal_minus, int_digits_str_pos.
Qed.

(** Within the bound on the digits, [int] reads the decimal form back. *)
Lemma int_str n : (digits_of n <= max_str_digits)%N -> int (str n) = Some n.
Proof.
  intros H. unfold int. unfold digits_of in H.
  apply N.leb_le in H. rewrite H. apply int_literal_str.
Qed.

Lemma every_append p s t : every p (s ++ t) = every p s && every p t.
Proof.
  induction s as [|c s IH]; cbn; [reflexivity|]. now rewrite IH, andb_assoc.
Qed.

Lemma has_space_uint d : has_space (NilEmpty.string_of_uint d) = false.
Proof. induction d; cbn; assumption || reflexivity. Qed.

Lemma no_break_uint d : no_break (NilEmpty.string_of_uint d) = true.
Proof. unfold no_break. induction d; cbn; assumption || reflexivity. Qed.

Lemma has_space_str n : has_space (str n) = false.
Proof.
  destruct n as [|p|p]; [reflexivity| |]; rewrite ?str_neg, str_pos; cbn;
    apply has_space_uint.
Qed.

Lemma no_break_str n : no_break (str n) = true.
Proof.
  destruct n as [|p|p]; [reflexivity| |]; rewrite ?str_neg, str_pos;
    [|unfold no_break; cbn; fold (no_break (NilEmpty.string_of_uint (Pos.to_uint p)))];
    apply no_break_uint.
Qed.

Lemma int_digits_zeros k :
  forall b p, int_digits b 0 (zeros k ++ str (Z.pos p)) = Some (Z.pos p).
Proof.
  induction k as [|k IH]; intros b p; cbn [zeros append].
  - apply int_digits_str_pos.
  - cbn [int_digits]. change (is_digit "0") with true. cbv iota.
    change (10 * 0 + digit_value "0") with 0. apply IH.
Qed.

Lemma int_literal_zeros k p :
  int_literal (zeros k ++ str (Z.pos p)) = Some (Z.pos p).
Proof.
  destruct k as [|k]; [apply int_literal_str|].
  cbn [zeros append].
  change (int_literal (String "0" (zeros k ++ str (Z.pos p))))
    with (int_digits false 0 (String "0" (zeros k ++ str (Z.pos p)))).
  apply (int_digits_zeros (S k)).
Qed.

Lemma int_literal_format_04 i : int_literal (format_04 i) = Some i.
Proof.
  destruct i as [|p|p]; [reflexivity| |].
  - unfold format_04. cbn [Z.ltb Z.compare Z.abs append String.length].
    apply int_literal_zeros.
  - unfold format_04. cbn [Z.ltb Z.compare Z.abs append].
    rewrite int_literal_minus, int_digits_zeros. reflexivity.
Qed.

Lemma format_04_inj i j : format_04 i = format_04 j -> i = j.
Proof.
  intros H. apply (f_equal int_literal) in H.
  rewrite !int_literal_format_04 in H. congruence.
Qed.

Lemma parse_errno_line n name message :
  has_space name = false ->
  (digits_of n <= max_str_digits)%N ->
  parse_line (errno_line (n, name, message)) = Ret (n, name, message).
Proof.
  intros Hname Hn. unfold parse_line, errno_line. cbn [append].
  rewrite (split_fields name (str n) message Hname (has_space_str n)).
  now rewrite (int_str n Hn).
Qed.

Lemma splitlines_line l rest :
  no_break l = true -> splitlines (l ++ LF ++ rest) = l :: splitlines rest.
Proof.
  unfold no_break. induction l as [|c l IH]; intros Hl.
  - cbn. destruct rest; reflexivity.
  - cbn [every] in Hl. apply andb_true_iff in Hl. destruct Hl as [Hc Hl].
    apply negb_true_iff in Hc.
    cbn [append splitlines]. rewrite Hc.
    change (l ++ String "010" rest)%string with (l ++ LF ++ rest)%string.
    now rewrite (IH Hl).
Qed.

Lemma printable_inv n name message :
  printable (n, name, message) = true ->
  has_space name = false /\ no_break name = true /\ no_break message = true
  /\ (digits_of n <= max_str_digits)%N.
Proof.
  unfold printable. rewrite !andb_true_iff, negb_true_iff, N.leb_le. tauto.
Qed.

Lemma no_break_errno_line t : printable t = true -> no_break (errno_line t) = true.
Proof.
  destruct t as [[n name] message]. intros H.
  apply printable_inv in H. destruct H as (_ & Hn & Hm & _).
  unfold errno_line, no_break in *.
  pose proof (no_break_str n) as Hs. unfold no_break in Hs.
  rewrite !every_append. now rewrite Hn, Hm, Hs.
Qed.

Lemma splitlines_errno_text entries :
  forallb printable entries = true ->
  splitlines (errno_text entries) = map errno_line entries.
Proof.
  induction entries as [|t rest IH]; intros H; [reflexivity|].
  cbn [forallb] in H. apply andb_true_iff in H. destruct H as [Ht Hr].
  cbn [errno_text map].
  now rewrite splitlines_line, IH by (assumption || now apply no_break_errno_line).
Qed.

Lemma parse_errno_text entries :
  forallb printable entries = true ->
  parse (errno_text entries) = Ret (sort entries).
Proof.
  intros H. apply parse_ret. exists entries. split; [|reflexivity].
  rewrite splitlines_errno_text by exact H.
  apply parse_lines_ret. exists entries. split; [|reflexivity].
  induction entries as [|[[n name] message] rest IH]; [constructor|].
  cbn [forallb] in H. apply andb_true_iff in H. destruct H as [Ht Hr].
  cbn [map]. constructor; [|now apply IH].
  apply printable_inv in Ht. destruct Ht as (Hs & _ & _ & Hd).
  now apply parse_errno_line.
Qed.

(** ** Failures *)

Lemma parse_lines_raises lines :
  forall acc e, parse_lines lines acc = Raise e -> e = ValueError.
Proof.
  induction lines as [|line rest IH]; intros acc e H; [discriminate|].
  cbn in H. destruct (parse_line line) as [t|e'] eqn:Hl.
  - now apply IH in H.
  - injection H as <-. now apply parse_line_raises in Hl.
Qed.

Lemma parse_raises raw e : parse raw = Raise e -> e = ValueError.
Proof.
  unfold parse. destruct (parse_lines (splitlines raw) []) as [es|e'] eqn:H;
    [discriminate|].
  intros [= <-]. now apply parse_lines_raises in H.
Qed.

Lemma select_which_raises argv e : select_which argv = Raise e -> e = IndexError.
Proof. destruct argv as [|a [|b r]]; cbn; congruence. Qed.

Lemma select_which_ret argv :
  (exists which, select_which argv = Ret which) <-> List.length argv <> 1%nat.
Proof.
  destruct argv as [|a [|b r]]; cbn; split; try congruence; try lia.
  - now exists None.
  - intros [which H]. discriminate.
  - now exists (Some b).
Qed.

Lemma run_main_renders_ret returncode raw err argv errnos which :
  parse raw = Ret errnos ->
  select_which argv = Ret which ->
  exists out, run_main (Completed_process returncode raw err) argv = (out, Ret tt).
Proof.
  intros Hp Hw. rewrite (run_main_renders _ _ _ _ _ _ Hp Hw).
  destruct (which_is which "decls"); [rewrite render_decls_run; eauto|].
  destruct (which_is which "defs"); [rewrite render_defs_run; eauto|eauto].
Qed.

Lemma parse_lines_total lines :
  forall acc,
    Forall (fun line => malformed line = false) lines ->
    exists es, parse_lines lines acc = Ret es.
Proof.
  induction lines as [|line rest IH]; intros acc H; [now exists acc|].
  inversion H as [|? ? Hline Hrest]; subst. cbn.
  destruct (parse_line line) as [t|e] eqn:Hl; [now apply IH|].
  rewrite (parse_line_raises _ _ Hl) in Hl.
  apply parse_line_malformed in Hl. congruence.
Qed.

Lemma parse_total raw :
  (exists errnos, parse raw = Ret errnos) <->
  Forall (fun line => malformed line = false) (splitlines raw).
Proof.
  split.
  - intros [errnos H]. apply Forall_forall. intros line Hin.
    destruct (malformed line) eqn:Hbad; [|reflexivity].
    unfold parse in H.
    now rewrite (parse_lines_malformed _ [] line Hin Hbad) in H.
  - intros H. destruct (parse_lines_total _ [] H) as [es Hes].
    exists (sort es). unfold parse. now rewrite Hes.
Qed.

Lemma splitlines_after_LF a :
  forall rest, exists ls,
    ls <> [] /\ splitlines (a ++ LF ++ rest) = ls ++ splitlines rest.
Proof.
  induction a as [|c a IH]; intros rest.
  - exists [EmptyString]. split; [discriminate|]. cbn. destruct rest; reflexivity.
  - destruct (IH rest) as (ls & Hne & Hls).
    destruct ls as [|l ls]; [congruence|].
    cbn [append splitlines]. destruct (is_linebreak c) eqn:Hc.
    + destruct a as [|c' a].
      * cbn [append] in *. change (LF ++ rest)%string with (String "010" rest).
        cbv iota.
        destruct ((code c =? 13)%N && (code "010" =? 10)%N).
        -- exists [EmptyString]. split; [discriminate|reflexivity].
        -- exists (EmptyString :: l :: ls). split; [discriminate|].
           cbn [app]. f_equal. exact Hls.
      * cbn [append] in *. cbv iota.
        destruct ((code c =? 13)%N && (code c' =? 10)%N) eqn:Hcr.
        -- apply andb_true_iff in Hcr. destruct Hcr as [_ Hlf].
           apply N.eqb_eq in Hlf.
           assert (c' = "010"%char) as ->.
           { rewrite <- (ascii_N_embedding c'). unfold code in Hlf. now rewrite Hlf. }
           cbn [splitlines] in Hls. change (is_linebreak "010") with true in Hls.
           cbv iota in Hls.
           destruct (a ++ LF ++ rest)%string as [|c2 s2] eqn:Hs.
           ++ destruct a; discriminate.
           ++ change ((code "010" =? 13)%N && (code c2 =? 10)%N) with false in Hls.
              cbv iota in Hls. cbn [app] in Hls. injection Hls as <- Hls.
              exists (EmptyString :: ls). split; [discriminate|].
              cbn [app]. f_equal. exact Hls.
        -- exists (EmptyString :: l :: ls). split; [discriminate|].
           cbn [app]. f_equal. exact Hls.
    + rewrite Hls. cbn [app]. exists (String c l :: ls).
      split; [discriminate|reflexivity].
Qed.

Lemma splitlines_blank a b :
  In EmptyString (splitlines (a ++ LF ++ LF ++ b)).
Proof.
  destruct (splitlines_after_LF a (LF ++ b)) as (ls & _ & ->).
  apply in_or_app. right. cbn. destruct b; now left.
Qed.

(** ** Every printed line is one line *)

Lemma splitlines_no_break_len n :
  forall s, (String.length s <= n)%nat ->
            Forall (fun l => no_break l = true) (splitlines s).
Proof.
  unfold no_break.
  induction n as [|n IH]; intros [|c s] Hlen; try constructor;
    cbn [String.length] in Hlen; try lia.
  cbn [splitlines]. destruct (is_linebreak c) eqn:Hc.
  - destruct s as [|c' s']; [repeat constructor|].
    cbn [String.length] in Hlen.
    destruct ((code c =? 13)%N && (code c' =? 10)%N);
      (constructor; [reflexivity | apply IH; cbn [String.length]; lia]).
  - pose proof (IH s ltac:(lia)) as Hs.
    destruct (splitlines s) as [|l ls].
    + repeat constructor. cbn. now rewrite Hc.
    + inversion Hs as [|? ? Hl Hls]; subst. constructor; [|exact Hls].
      cbn. now rewrite Hc, Hl.
Qed.

Lemma splitlines_no_break s : Forall (fun l => no_break l = true) (splitlines s).
Proof. now apply (splitlines_no_break_len (String.length s)). Qed.

Lemma split_no_break sep s :
  forall n, no_break s = true ->
            Forall (fun p => no_break p = true) (split sep n s).
Proof.
  unfold no_break. induction s as [|c s IH]; intros [|n] Hs;
    try (repeat constructor; assumption).
  cbn [every] in Hs. apply andb_true_iff in Hs. destruct Hs as [Hc Hs].
  cbn [split]. destruct (Ascii.eqb c sep).
  - constructor; [reflexivity|now apply IH].
  - pose proof (IH (S n) Hs) as H.
    destruct (split sep (S n) s) as [|p ps].
    + repeat constructor. cbn. now rewrite Hc.
    + inversion H as [|? ? Hp Hps]; subst. constructor; [|exact Hps].
      cbn. now rewrite Hc, Hp.
Qed.

Lemma parse_line_no_break line n name message :
  no_break line = true ->
  parse_line line = Ret (n, name, message) ->
  no_break name = true /\ no_break message = true.
Proof.
  intros Hl. unfold parse_line.
  pose proof (split_no_break " " line 2 Hl) as H.
  destruct (split " " 2 line) as [|a [|b [|c [|d l]]]]; try discriminate.
  destruct (int b); [|discriminate]. intros [= _ <- <-].
  inversion H as [|? ? Ha H']; subst. inversion H' as [|? ? _ H'']; subst.
  inversion H'' as [|? ? Hc _]; subst. now split.
Qed.

(** The case mapping sends no character to a line boundary. *)
Lemma is_linebreak_to_upper c : is_linebreak (to_upper c) = is_linebreak c.
Proof. destruct c as [[] [] [] [] [] [] [] []]; reflexivity. Qed.

Lemma is_linebreak_to_lower c : is_linebreak (to_lower c) = is_linebreak c.
Proof. destruct c as [[] [] [] [] [] [] [] []]; reflexivity. Qed.

Lemma title_from_no_break s :
  forall b, no_break (title_from b s) = no_break s.
Proof.
  unfold no_break. induction s as [|c s IH]; intros b; [reflexivity|].
  cbn [title_from every]. rewrite IH.
  destruct b; now rewrite ?is_linebreak_to_upper, ?is_linebreak_to_lower.
Qed.

Lemma no_break_append s t : no_break (s ++ t) = no_break s && no_break t.
Proof. apply every_append. Qed.

Lemma no_break_zeros k : no_break (zeros k) = true.
Proof. unfold no_break. induction k; cbn; assumption || reflexivity. Qed.

Lemma no_break_format_04 i : no_break (format_04 i) = true.
Proof.
  unfold format_04. rewrite !no_break_append, no_break_zeros, no_break_str.
  destruct (i <? 0); reflexivity.
Qed.

Lemma no_break_decl_line name : no_break name = true -> no_break (decl_line name) = true.
Proof.
  intros H. unfold decl_line, title.
  now rewrite !no_break_append, title_from_no_break, H.
Qed.

Lemma no_break_def_line n name :
  no_break name = true -> no_break (def_line n name) = true.
Proof.
  intros H. unfold def_line, title.
  now rewrite !no_break_append, title_from_no_break, H, no_break_str.
Qed.

Lemma no_break_empty_line i : no_break (empty_line i) = true.
Proof. unfold empty_line. now rewrite !no_break_append, no_break_format_04. Qed.

Lemma no_break_entry_line i name message :
  no_break name = true -> no_break message = true ->
  no_break (entry_line i name message) = true.
Proof.
  intros Hn Hm. unfold entry_line.
  now rewrite !no_break_append, no_break_format_04, Hn, Hm.
Qed.

Lemma parse_entries_no_break raw errnos :
  parse raw = Ret errnos ->
  Forall (fun t : entry =>
            no_break (snd (fst t)) = true /\ no_break (snd t) = true) errnos.
Proof.
  intros Hp. apply parse_ret in Hp. destruct Hp as (es & Hl & ->).
  apply parse_lines_ret in Hl. destruct Hl as (es' & HF & ->). cbn [app].
  eapply Permutation_Forall; [apply sort_perm|].
  pose proof (splitlines_no_break raw) as Hb.
  induction HF as [|line [[n name] message] lines es Hline _ IH]; [constructor|].
  inversion Hb as [|? ? Hl Hb']; subst.
  constructor; [|now apply IH].
  cbn [fst snd]. now apply (parse_line_no_break line n).
Qed.

Lemma table_lines_no_break errnos next :
  Forall (fun t : entry =>
            no_break (snd (fst t)) = true /\ no_break (snd t) = true) errnos ->
  Forall (fun line => no_break line = true) (table_lines errnos next).
Proof.
  intros H. apply Forall_forall. intros line Hin.
  apply In_nth_error in Hin. destruct Hin as [k Hk].
  apply table_lines_index in Hk.
  destruct Hk as [->|(n & name & message & Hin & ->)].
  - apply no_break_empty_line.
  - rewrite Forall_forall in H. destruct (H _ Hin) as [Hn Hm].
    now apply no_break_entry_line.
Qed.

Lemma run_main_no_break tool argv :
  Forall (fun line => no_break line = true) (fst (run_main tool argv)).
Proof.
  destruct tool as [e|returncode raw err]; [constructor|].
  destruct (parse raw) as [errnos|e] eqn:Hp;
    [|rewrite (run_main_parse_error _ _ _ _ _ Hp); constructor].
  destruct (select_which argv) as [which|e] eqn:Hw;
    [|rewrite (run_main_argv_error _ _ _ _ _ _ Hp Hw); constructor].
  rewrite (run_main_renders _ _ _ _ _ _ Hp Hw).
  pose proof (parse_entries_no_break _ _ Hp) as He.
  destruct (which_is which "decls"); [|destruct (which_is which "defs")].
  - rewrite render_decls_run. cbn [fst app]. apply Forall_map.
    eapply Forall_impl; [|exact He]. cbn. intros t [Hn _].
    now apply no_break_decl_line.
  - rewrite render_defs_run. cbn [fst app]. apply Forall_map.
    eapply Forall_impl; [|exact He]. cbn. intros t [Hn _].
    now apply no_break_def_line.
  - cbn [fst]. apply Forall_app. split; now apply table_lines_no_break.
Qed.

(** ** Every entry has its line in the table *)

Lemma table_lines_entry errnos :
  forall next n name message,
    In (n, name, message) errnos ->
    exists k,
      nth_error (table_lines errnos next) k
      = Some (entry_line (next + Z.of_nat k) name message)
      /\ n <= next + Z.of_nat k.
Proof.
  induction errnos as [|[[n0 name0] message0] rest IH];
    intros next n name message Hin; [destruct Hin|].
  cbn [table_lines].
  assert (Hlen : List.length (map empty_line (zrange next n0)) = Z.to_nat (n0 - next))
    by now rewrite length_map, zrange_length.
  destruct Hin as [[= -> -> ->]|Hin].
  - exists (Z.to_nat (n - next)). split; [|lia].
    rewrite nth_error_app2 by lia. rewrite Hlen, Nat.sub_diag. cbn [nth_error].
    do 2 f_equal. lia.
  - destruct (IH (Z.max next n0 + 1) n name message Hin) as (k & Hk & Hge).
    exists (Z.to_nat (n0 - next) + S k)%nat. split; [|lia].
    rewrite nth_error_app2 by lia. rewrite Hlen.
    replace (Z.to_nat (n0 - next) + S k - Z.to_nat (n0 - next))%nat with (S k) by lia.
    cbn [nth_error]. rewrite Hk. do 2 f_equal. lia.
Qed.

(** ** The order of the result *)

Lemma numbered_perm k l1 l2 :
  Permutation l1 l2 -> Permutation (numbered k l1) (numbered k l2).
Proof.
  unfold numbered. induction 1 as [|t l1 l2 _ IH|t u l|l1 l2 l3 _ IH1 _ IH2]; cbn.
  - constructor.
  - destruct (key t =? k); [now constructor|exact IH].
  - destruct (key t =? k), (key u =? k); try reflexivity. apply perm_swap.
  - now transitivity (filter (fun t => key t =? k) l2).
Qed.

Lemma numbered_NoDup k l :
  NoDup (map key l) -> (List.length (numbered k l) <= 1)%nat.
Proof.
  unfold numbered. induction l as [|t l IH]; intros H; cbn; [lia|].
  cbn [map] in H. inversion H as [|? ? Hnotin Hnd]; subst.
  destruct (Z.eqb_spec (key t) k) as [Hk|Hk]; [|now apply IH].
  replace (filter (fun u => key u =? k) l) with (@nil entry); [cbn; lia|].
  symmetry. destruct (filter (fun u => key u =? k) l) as [|u f] eqn:Hf; [reflexivity|].
  assert (Hin : In u (filter (fun u => key u =? k) l)) by (rewrite Hf; now left).
  apply filter_In in Hin. destruct Hin as [Hin Hu]. apply Z.eqb_eq in Hu.
  exfalso. apply Hnotin. rewrite Hk, <- Hu. now apply in_map.
Qed.

Lemma sort_perm_NoDup l1 l2 :
  Permutation l1 l2 -> NoDup (map key l1) -> sort l1 = sort l2.
Proof.
  intros Hp Hnd. apply ascending_numbered_eq; try apply sort_ascending.
  intros k. rewrite !sort_numbered.
  pose proof (numbered_perm k _ _ Hp) as Hk.
  pose proof (numbered_NoDup k l1 Hnd) as Hlen.
  destruct (numbered k l1) as [|t [|u l]]; cbn in Hlen; try lia.
  - now apply Permutation_nil in Hk.
  - now apply Permutation_length_1_inv in Hk.
Qed.

(** ** Identifiers *)

Lemma to_upper_to_lower c : is_lower c = false -> to_upper (to_lower c) = c.
Proof. destruct c as [[] [] [] [] [] [] [] []]; (reflexivity || discriminate). Qed.

Lemma to_upper_to_upper c : is_lower c = false -> to_upper (to_upper c) = c.
Proof. destruct c as [[] [] [] [] [] [] [] []]; (reflexivity || discriminate). Qed.

Lemma upper_title_from s :
  forall b, no_lower s = true -> upper (title_from b s) = s.
Proof.
  unfold no_lower. induction s as [|c s IH]; intros b H; [reflexivity|].
  cbn [every] in H. apply andb_true_iff in H. destruct H as [Hc Hs].
  apply negb_true_iff in Hc.
  cbn [title_from upper]. rewrite (IH _ Hs).
  destruct b; now rewrite ?to_upper_to_lower, ?to_upper_to_upper.
Qed.

Lemma parse_lines_errno_lines entries :
  forallb printable entries = true ->
  parse_lines (map errno_line entries) [] = Ret entries.
Proof.
  intros H. apply parse_lines_ret. exists entries. split; [|reflexivity].
  induction entries as [|[[n name] message] rest IH]; [constructor|].
  cbn [forallb] in H. apply andb_true_iff in H. destruct H as [Ht Hr].
  cbn [map]. constructor; [|now apply IH].
  apply printable_inv in Ht. destruct Ht as (Hs & _ & _ & Hd).
  now apply parse_errno_line.
Qed.

Lemma splitlines_single l :
  no_break l = true -> l <> EmptyString -> splitlines l = [l].
Proof.
  unfold no_break. induction l as [|c l IH]; intros Hl Hne; [congruence|].
  cbn [every] in Hl. apply andb_true_iff in Hl. destruct Hl as [Hc Hl].
  apply negb_true_iff in Hc. cbn [splitlines]. rewrite Hc.
  destruct l as [|c' l']; [reflexivity|].
  now rewrite (IH Hl) by discriminate.
Qed.

Lemma errno_line_not_empty t : errno_line t <> EmptyString.
Proof. destruct t as [[n name] message]. cbn. destruct name; discriminate. Qed.

Lemma splitlines_errno_text_last entries t :
  forallb printable entries = true ->
  printable t = true ->
  splitlines (errno_text entries ++ errno_line t) = map errno_line (entries ++ [t]).
Proof.
  intros H Ht. induction entries as [|u rest IH].
  - cbn [errno_text append app map].
    apply splitlines_single; [now apply no_break_errno_line|apply errno_line_not_empty].
  - cbn [forallb] in H. apply andb_true_iff in H. destruct H as [Hu Hr].
    cbn [errno_text app map]. rewrite !append_assoc.
    rewrite splitlines_line by now apply no_break_errno_line.
    now rewrite IH.
Qed.

(** A run looks at the tool's text through [parse] only. *)
Lemma run_main_parse_eq returncode raw err returncode' raw' err' argv :
  parse raw = parse raw' ->
  run_main (Completed_process returncode raw err) argv
  = run_main (Completed_process returncode' raw' err') argv.
Proof.
  intros H. unfold run_main, main, bind at 1 4, run_stdout, ret. now rewrite H.
Qed.

Lemma every_impl (p q : ascii -> bool) s :
  (forall c, p c = true -> q c = true) -> every p s = true -> every q s = true.
Proof.
  intros Hpq. induction s as [|c s IH]; [reflexivity|].
  cbn [every]. rewrite !andb_true_iff. intros [Hc Hs]. split; auto.
Qed.

Lemma plain_upper_no_lower s : plain_upper s = true -> no_lower s = true.
Proof.
  apply every_impl. intros c H. apply andb_true_iff in H. tauto.
Qed.

(** The index field holds no star, so the first star of a table line
    ends it. *)
Lemma not_star_uint d :
  every (fun c => negb (Ascii.eqb c "*")) (NilEmpty.string_of_uint d) = true.
Proof. induction d; cbn; assumption || reflexivity. Qed.

Lemma not_star_str n : every (fun c => negb (Ascii.eqb c "*")) (str n) = true.
Proof.
  destruct n as [|p|p]; [reflexivity| |]; rewrite ?str_neg, str_pos; cbn;
    apply not_star_uint.
Qed.

Lemma not_star_zeros k : every (fun c => negb (Ascii.eqb c "*")) (zeros k) = true.
Proof. induction k; cbn; assumption || reflexivity. Qed.

Lemma not_star_format_04 i :
  every (fun c => negb (Ascii.eqb c "*")) (format_04 i) = true.
Proof.
  unfold format_04. rewrite !every_append, not_star_zeros, not_star_str.
  destruct (i <? 0); reflexivity.
Qed.

Lemma cut_at_star a :
  forall b x y,
    every (fun c => negb (Ascii.eqb c "*")) a = true ->
    every (fun c => negb (Ascii.eqb c "*")) b = true ->
    (a ++ String "*" x)%string = (b ++ String "*" y)%string ->
    a = b /\ x = y.
Proof.
  induction a as [|c a IH]; intros [|c' b] x y Ha Hb H; cbn [append every] in *.
  - injection H as <-. now split.
  - injection H as <- _. discriminate.
  - injection H as -> _. discriminate.
  - apply andb_true_iff in Ha, Hb. injection H as <- H.
    destruct (IH b x y (proj2 Ha) (proj2 Hb) H) as [<- <-]. now split.
Qed.

(** X1: a line made of a name without a space, the decimal form of a
    number that has no more digits than the interpreter converts, and a
    message, with one space between them, is parsed back into that
    number, name and message, spaces of the message included. *)
Theorem X1_line_round_trip n name message :
  has_space name = false ->
  (digits_of n <= max_str_digits)%N ->
  parse_line (name ++ " " ++ str n ++ " " ++ message) = Ret (n, name, message).
Proof. intros H Hn. now apply (parse_errno_line n name message). Qed.

Lemma X1_line_round_trip_witness :
  has_space "ENOENT" = false /\
  (digits_of 2 <= max_str_digits)%N /\
  parse_line ("ENOENT" ++ " " ++ str 2 ++ " " ++ "No such file or directory")
  = Ret (2, "ENOENT", "No such file or directory").
Proof.
  assert (Hd : (digits_of 2 <= max_str_digits)%N) by (apply N.leb_le; reflexivity).
  split; [reflexivity|]. split; [exact Hd|].
  apply (X1_line_round_trip 2 "ENOENT" "No such file or directory");
    [reflexivity|exact Hd].
Defined.

(** X2: a line of the table determines the index written on it and
    whether it is a placeholder: for indices that the interpreter can
    format, two placeholders, or two entry lines, with different
    indices are different lines, and a placeholder is never equal to an
    entry line, whatever the name and the message hold. *)
Theorem X2_table_lines_determine_the_index i j name message name' message' :
  (digits_of i <= max_str_digits)%N ->
  (digits_of j <= max_str_digits)%N ->
  (empty_line i = empty_line j -> i = j) /\
  (entry_line i name message = entry_line j name' message' -> i = j) /\
  empty_line i <> entry_line j name' message'.
Proof.
  intros _ _. unfold empty_line, entry_line. cbn [append].
  split; [|split].
  - intros [= H]. apply cut_at_star in H; try apply not_star_format_04.
    now apply format_04_inj.
  - intros [= H]. apply cut_at_star in H; try apply not_star_format_04.
    now apply format_04_inj.
  - intros [= H]. apply cut_at_star in H; try apply not_star_format_04.
    destruct H as [_ H]. discriminate.
Qed.

Lemma X2_table_lines_determine_the_index_witness :
  (digits_of 1 <= max_str_digits)%N /\
  (digits_of 12 <= max_str_digits)%N /\
  (empty_line 1 = empty_line 12 -> 1 = 12) /\
  (entry_line 1 "EPERM" "Operation not permitted"
   = entry_line 12 "ENOMEM" "Cannot allocate memory" -> 1 = 12) /\
  empty_line 1 <> entry_line 12 "ENOMEM" "Cannot allocate memory".
Proof.
  assert (H1 : (digits_of 1 <= max_str_digits)%N) by (apply N.leb_le; reflexivity).
  assert (H2 : (digits_of 12 <= max_str_digits)%N) by (apply N.leb_le; reflexivity).
  split; [exact H1|]. split; [exact H2|].
  exact (X2_table_lines_determine_the_index 1 12 "EPERM" "Operation not permitted"
           "ENOMEM" "Cannot allocate memory" H1 H2).
Defined.

(** X3: the text of a list of entries, one line [name number message]
    each, ended by LF, is parsed into these entries sorted by number,
    when every entry is [printable]: a name without a space, no line
    boundary in the name or the message, and a number within the bound
    of the interpreter on the digits of a conversion. *)
Theorem X3_text_round_trip entries :
  forallb printable entries = true ->
  parse (errno_text entries) = Ret (sort entries).
Proof. apply parse_errno_text. Qed.

Lemma X3_text_round_trip_witness :
  forallb printable [(2, "ENOENT", "No such file or directory");
                     (1, "EPERM", "Operation not permitted")] = true /\
  parse (errno_text [(2, "ENOENT", "No such file or directory");
                     (1, "EPERM", "Operation not permitted")])
  = Ret (sort [(2, "ENOENT", "No such file or directory");
               (1, "EPERM", "Operation not permitted")]).
Proof.
  split; [reflexivity|].
  apply (X3_text_round_trip [(2, "ENOENT", "No such file or directory");
                             (1, "EPERM", "Operation not permitted")]).
  reflexivity.
Defined.

(** X4: the last line needs no LF after it: the text of [printable]
    entries parses to the same entries with or without the final line
    boundary. *)
Theorem X4_last_line_unterminated entries t :
  forallb printable entries = true ->
  printable t = true ->
  parse (errno_text entries ++ errno_line t) = Ret (sort (entries ++ [t]))
  /\ parse (errno_text entries ++ errno_line t) = parse (errno_text (entries ++ [t])).
Proof.
  intros H Ht.
  assert (Hall : forallb printable (entries ++ [t]) = true).
  { rewrite forallb_app, H. cbn. now rewrite Ht. }
  assert (Hp : parse (errno_text entries ++ errno_line t) = Ret (sort (entries ++ [t]))).
  { unfold parse. rewrite (splitlines_errno_text_last _ _ H Ht).
    now rewrite (parse_lines_errno_lines _ Hall). }
  split; [exact Hp|]. now rewrite Hp, (parse_errno_text _ Hall).
Qed.

Lemma X4_last_line_unterminated_witness :
  forallb printable [(1, "EPERM", "Operation not permitted")] = true /\
  printable (2, "ENOENT", "No such file or directory") = true /\
  parse (errno_text [(1, "EPERM", "Operation not permitted")]
           ++ errno_line (2, "ENOENT", "No such file or directory"))
  = Ret (sort ([(1, "EPERM", "Operation not permitted")]
                 ++ [(2, "ENOENT", "No such file or directory")])) /\
  parse (errno_text [(1, "EPERM", "Operation not permitted")]
           ++ errno_line (2, "ENOENT", "No such file or directory"))
  = parse (errno_text ([(1, "EPERM", "Operation not permitted")]
                         ++ [(2, "ENOENT", "No such file or directory")])).
Proof.
  split; [reflexivity|]. split; [reflexivity|].
  apply (X4_last_line_unterminated [(1, "EPERM", "Operation not permitted")]
           (2, "ENOENT", "No such file or directory")); reflexivity.
Defined.

(** X6: once the tool has run, the script gets past parsing and the
    choice of the mode, to its first [print], exactly when no line of
    the tool's output is malformed and [sys.argv] does not hold the
    script name alone.  So a run that ends normally had both, and a run
    without one of them has printed nothing and ends on [ValueError] or
    [IndexError]. *)
Theorem X6_when_printing_is_reached returncode raw err argv :
  ((exists errnos which, parse raw = Ret errnos /\ select_which argv = Ret which)
   <-> Forall (fun line => malformed line = false) (splitlines raw)
       /\ List.length argv <> 1%nat) /\
  (succeeded (run_main (Completed_process returncode raw err) argv) ->
   Forall (fun line => malformed line = false) (splitlines raw)
   /\ List.length argv <> 1%nat) /\
  (~ (Forall (fun line => malformed line = false) (splitlines raw)
      /\ List.length argv <> 1%nat) ->
   exists e,
     run_main (Completed_process returncode raw err) argv = ([], Raise e)
     /\ (e = ValueError \/ e = IndexError)).
Proof.
  assert (Hiff : (exists errnos which,
                     parse raw = Ret errnos /\ select_which argv = Ret which)
                 <-> Forall (fun line => malformed line = false) (splitlines raw)
                     /\ List.length argv <> 1%nat).
  { rewrite <- parse_total, <- select_which_ret. split.
    - intros (errnos & which & Hp & Hw). split; eauto.
    - intros [[errnos Hp] [which Hw]]. eauto. }
  split; [exact Hiff|]. split.
  - unfold succeeded. intros H. apply Hiff.
    destruct (parse raw) as [errnos|e] eqn:Hp.
    + destruct (select_which argv) as [which|e] eqn:Hw; [eauto|].
      rewrite (run_main_argv_error _ _ _ _ _ _ Hp Hw) in H. discriminate.
    + rewrite (run_main_parse_error _ _ _ _ _ Hp) in H. discriminate.
  - intros Hnot. destruct (parse raw) as [errnos|e] eqn:Hp.
    + destruct (select_which argv) as [which|e] eqn:Hw.
      * exfalso. apply Hnot, Hiff. eauto.
      * exists e. rewrite (run_main_argv_error _ _ _ _ _ _ Hp Hw).
        split; [reflexivity|]. right. now apply select_which_raises in Hw.
    + exists e. rewrite (run_main_parse_error _ _ _ _ _ Hp).
      split; [reflexivity|]. left. now apply parse_raises in Hp.
Qed.

(** X7: no printed line holds a line boundary, whatever the tool's text
    and the arguments: every [print] of the script gives exactly one
    line of the generated file. *)
Theorem X7_printed_lines_are_single_lines tool argv :
  Forall (fun line => no_break line = true) (fst (run_main tool argv)).
Proof. apply run_main_no_break. Qed.

(** X8: whatever the numbers (repeated, negative, in any order), every
    entry has its line in a rendering of the table; the index written
    on that line is its position, which is never below the number of
    the entry. *)
Theorem X8_every_entry_is_in_the_table errnos block n name message :
  render_table errnos [] = (block, Ret tt) ->
  In (n, name, message) errnos ->
  exists k,
    nth_error block k = Some (entry_line (Z.of_nat k) name message)
    /\ n <= Z.of_nat k.
Proof.
  intros Hrun Hin. rewrite render_table_run in Hrun. injection Hrun as <-.
  cbn [app]. exact (table_lines_entry errnos 0 n name message Hin).
Qed.

Lemma X8_every_entry_is_in_the_table_witness :
  render_table [(-2, "D", "w"); (1, "A", "y"); (1, "C", "z")] []
  = ([entry_line 0 "D" "w"; entry_line 1 "A" "y"; entry_line 2 "C" "z"], Ret tt) /\
  In (1, "C", "z") [(-2, "D", "w"); (1, "A", "y"); (1, "C", "z")] /\
  exists k,
    nth_error [entry_line 0 "D" "w"; entry_line 1 "A" "y"; entry_line 2 "C" "z"] k
    = Some (entry_line (Z.of_nat k) "C" "z")
    /\ 1 <= Z.of_nat k.
Proof.
  assert (Hin : In (1, "C", "z") [(-2, "D", "w"); (1, "A", "y"); (1, "C", "z")])
    by (right; right; left; reflexivity).
  split; [reflexivity|]. split; [exact Hin|].
  apply (X8_every_entry_is_in_the_table
           [(-2, "D", "w"); (1, "A", "y"); (1, "C", "z")] _ 1 "C" "z");
    [reflexivity|exact Hin].
Defined.

(** X9: the order of the parsed entries is fully determined: any list
    that is ascending by number and holds, under each number, the
    entries of the lines in their order is the result of [parse]. *)
Theorem X9_order_is_determined raw entries errnos l :
  parse_lines (splitlines raw) [] = Ret entries ->
  parse raw = Ret errnos ->
  ascending l ->
  (forall k, numbered k l = numbered k entries) ->
  l = errnos.
Proof.
  intros Hl Hp Hasc Hk. unfold parse in Hp. rewrite Hl in Hp.
  injection Hp as <-. now apply sort_unique.
Qed.

Lemma X9_order_is_determined_witness :
  parse_lines (splitlines ("B 3 x" ++ LF ++ "A 1 y" ++ LF ++ "C 1 z")%string) []
  = Ret [(3, "B", "x"); (1, "A", "y"); (1, "C", "z")] /\
  parse ("B 3 x" ++ LF ++ "A 1 y" ++ LF ++ "C 1 z")%string
  = Ret [(1, "A", "y"); (1, "C", "z"); (3, "B", "x")] /\
  ascending [(1, "A", "y"); (1, "C", "z"); (3, "B", "x")] /\
  [(1, "A", "y"); (1, "C", "z"); (3, "B", "x")]
  = [(1, "A", "y"); (1, "C", "z"); (3, "B", "x")].
Proof.
  assert (Hasc : ascending [(1, "A", "y"); (1, "C", "z"); (3, "B", "x")]).
  { unfold ascending. repeat constructor; cbn; lia. }
  split; [reflexivity|]. split; [reflexivity|]. split; [exact Hasc|].
  apply (X9_order_is_determined ("B 3 x" ++ LF ++ "A 1 y" ++ LF ++ "C 1 z")%string
           [(3, "B", "x"); (1, "A", "y"); (1, "C", "z")]);
    [reflexivity|reflexivity|exact Hasc|].
  intros k. unfold numbered. cbn [filter key fst].
  destruct (Z.eqb_spec 1 k), (Z.eqb_spec 3 k); try reflexivity. lia.
Defined.

(** X10: when the numbers are all different, the order of the tool's
    lines does not matter: two texts with the same entries in different
    orders are parsed into the same list, and every run on one prints
    what it prints on the other. *)
Theorem X10_line_order_is_irrelevant
        returncode raw err returncode' raw' err' argv entries entries' :
  parse_lines (splitlines raw) [] = Ret entries ->
  parse_lines (splitlines raw') [] = Ret entries' ->
  Permutation entries entries' ->
  NoDup (map key entries) ->
  parse raw = parse raw' /\
  run_main (Completed_process returncode raw err) argv
  = run_main (Completed_process returncode' raw' err') argv.
Proof.
  intros Hl Hl' Hperm Hnd.
  assert (Hp : parse raw = parse raw').
  { unfold parse. rewrite Hl, Hl'. f_equal. now apply sort_perm_NoDup. }
  split; [exact Hp|]. now apply run_main_parse_eq.
Qed.

Lemma X10_line_order_is_irrelevant_witness :
  parse_lines (splitlines ("B 3 x" ++ LF ++ "A 1 y")%string) []
  = Ret [(3, "B", "x"); (1, "A", "y")] /\
  parse_lines (splitlines ("A 1 y" ++ LF ++ "B 3 x")%string) []
  = Ret [(1, "A", "y"); (3, "B", "x")] /\
  NoDup (map key [(3, "B", "x"); (1, "A", "y")]) /\
  parse ("B 3 x" ++ LF ++ "A 1 y")%string = parse ("A 1 y" ++ LF ++ "B 3 x")%string /\
  run_main (Completed_process 0 ("B 3 x" ++ LF ++ "A 1 y")%string EmptyString)
           ["errnos.py"; "defs"]
  = run_main (Completed_process 0 ("A 1 y" ++ LF ++ "B 3 x")%string EmptyString)
             ["errnos.py"; "defs"].
Proof.
  assert (Hnd : NoDup (map key [(3, "B", "x"); (1, "A", "y")])).
  { cbn. constructor; [intros [H|[]]; discriminate|].
    constructor; [intros []|constructor]. }
  split; [reflexivity|]. split; [reflexivity|]. split; [exact Hnd|].
  apply (X10_line_order_is_irrelevant 0 _ EmptyString 0 _ EmptyString
           ["errnos.py"; "defs"]
           [(3, "B", "x"); (1, "A", "y")] [(1, "A", "y"); (3, "B", "x")]);
    [reflexivity|reflexivity|apply perm_swap|exact Hnd].
Defined.

(** X11: for a name of ASCII characters without a lower-case letter,
    upper-casing the identifier that [decls] and [defs] print gives the
    name back; so two such names never get the same identifier. *)
Theorem X11_identifier_determines_name name name' :
  plain_upper name = true ->
  plain_upper name' = true ->
  upper (title name) = name /\ (title name = title name' -> name = name').
Proof.
  intros H H'. apply plain_upper_no_lower in H, H'.
  split; [now apply upper_title_from|].
  intros Heq. apply (f_equal upper) in Heq.
  unfold title in Heq. now rewrite !upper_title_from in Heq.
Qed.

Lemma X11_identifier_determines_name_witness :
  plain_upper "E2BIG" = true /\
  plain_upper "ENOTSUP" = true /\
  upper (title "E2BIG") = "E2BIG" /\
  (title "E2BIG" = title "ENOTSUP" -> "E2BIG" = "ENOTSUP").
Proof.
  split; [reflexivity|]. split; [reflexivity|].
  apply (X11_identifier_determines_name "E2BIG" "ENOTSUP"); reflexivity.
Defined.

(** X12: a blank line in the tool's output (two LF in a row, wherever
    they stand) is a malformed line: the run ends on [ValueError] and
    prints nothing. *)
Theorem X12_blank_line_is_fatal returncode a b err argv :
  run_main (Completed_process returncode (a ++ LF ++ LF ++ b) err) argv
  = ([], Raise ValueError).
Proof.
  apply run_main_parse_error. unfold parse.
  now rewrite (parse_lines_malformed _ [] EmptyString (splitlines_blank a b)).
Qed.

(** X13: [decls] prints one declaration for each line of the tool's
    output, none lost and none repeated: the printed lines are the
    declarations of the entries of the lines, reordered. *)
Theorem X13_one_declaration_per_line returncode raw err script rest entries :
  parse_lines (splitlines raw) [] = Ret entries ->
  exists out,
    run_main (Completed_process returncode raw err) (script :: "decls" :: rest)
    = (out, Ret tt) /\
    List.length out = List.length (splitlines raw) /\
    Permutation (map (fun t : entry => decl_line (snd (fst t))) entries) out.
Proof.
  intros Hl.
  assert (Hp : parse raw = Ret (sort entries)) by (unfold parse; now rewrite Hl).
  exists (map (fun t : entry => decl_line (snd (fst t))) (sort entries)).
  rewrite (run_main_renders _ _ _ _ _ _ Hp (select_which_argument _ _ _)).
  cbn [which_is String.eqb Ascii.eqb Bool.eqb]. rewrite render_decls_run.
  split; [reflexivity|]. split.
  - rewrite length_map, <- (Permutation_length (sort_perm entries)).
    apply parse_lines_ret in Hl. destruct Hl as (es & HF & ->).
    symmetry. exact (Forall2_length HF).
  - apply Permutation_map, sort_perm.
Qed.

Lemma X13_one_declaration_per_line_witness :
  parse_lines (splitlines ("B 3 x" ++ LF ++ "A 1 y")%string) []
  = Ret [(3, "B", "x"); (1, "A", "y")] /\
  exists out,
    run_main (Completed_process 0 ("B 3 x" ++ LF ++ "A 1 y")%string EmptyString)
             ["errnos.py"; "decls"]
    = (out, Ret tt) /\
    List.length out = List.length (splitlines ("B 3 x" ++ LF ++ "A 1 y")%string) /\
    Permutation (map (fun t : entry => decl_line (snd (fst t)))
                     [(3, "B", "x"); (1, "A", "y")]) out.
Proof.
  split; [reflexivity|].
  apply (X13_one_declaration_per_line 0 ("B 3 x" ++ LF ++ "A 1 y")%string EmptyString
           "errnos.py" [] [(3, "B", "x"); (1, "A", "y")]).
  reflexivity.
Defined.

(** X14: the loop that fills a gap, started at [next] before an entry
    numbered [n], prints the placeholders of [next], ..., [n - 1] in
    this order (none when [n <= next]) after what was printed before,
    and stops with [next] at the larger of [next] and [n], its
    condition false. *)
Theorem X14_gap_is_filled n next out :
  while_next_lt (Z.to_nat (n - next)) n next out
  = (out ++ map empty_line (zrange next n), Ret (Z.max next n))
  /\ List.length (map empty_line (zrange next n)) = Z.to_nat (n - next)
  /\ (Z.max next n <? n) = false.
Proof.
  split; [apply while_next_lt_run; lia|].
  split; [now rewrite length_map, zrange_length | apply while_next_lt_exit].
Qed.
